(** * TopHat GPU monitor: history buffer, chart geometry, device discovery

    A shallow embedding of three source files of the extension:

    - [lib/gpu.js], the GPU monitor ([Gpu] below);
    - a second variant of the GPU monitor, written against the legacy
      [imports] modules, which reads [card0] inside [try]/[catch] blocks
      and keeps its samples as fractions ([GpuLegacy] below);
    - [lib/shared.js]: [bytesToHumanString], [GpuDevice], [AmdGpu] and
      [findGpuDevices] ([Shared] below).

    Modelling conventions.

    - A JavaScript number is a [number]: NaN, an infinity, or an exact
      rational.  Arithmetic is exact (no rounding to binary64) and the
      sign of zero is not tracked.  The geometry of the chart does not
      depend on this: it is stated over any type of numbers.
    - A JavaScript string is a [string] whose characters are code units
      below 256.
    - An exception is carried by [Throw] or [Throws]; a loop that never
      exits is reported as [Diverges].
    - [Config.HISTORY_MAX_SIZE] comes from [config.js] and the file
      helper from [file.js]; the bound is a parameter of every definition
      that reads it, and what the helper returns for a path is given by a
      [filesystem]. *)

From Stdlib Require Import ZArith QArith Qround String Ascii List Lia Lqa Bool.
From stdpp Require Import gmap strings list fin_maps.

Open Scope string_scope.
Open Scope list_scope.
Open Scope nat_scope.

(** ** JavaScript numbers *)

Inductive number : Type :=
| NaN
| Inf (negative : bool)
| Num (q : Q).

(** Finite values are kept in lowest terms, so that two equal finite
    numbers are the same term. *)
Definition num (q : Q) : number := Num (Qred q).
Definition of_Z (z : Z) : number := Num (inject_Z z).
Definition of_nat (n : nat) : number := of_Z (Z.of_nat n).

Definition Qneg (q : Q) : bool := (Qnum q <? 0)%Z.
Definition Qzero (q : Q) : bool := (Qnum q =? 0)%Z.

Definition isNaN (a : number) : bool :=
  match a with NaN => true | _ => false end.

Definition nopp (a : number) : number :=
  match a with
  | NaN => NaN
  | Inf s => Inf (negb s)
  | Num q => num (- q)
  end.

Definition nadd (a b : number) : number :=
  match a, b with
  | NaN, _ | _, NaN => NaN
  | Inf s, Inf t => if Bool.eqb s t then Inf s else NaN
  | Inf s, Num _ | Num _, Inf s => Inf s
  | Num p, Num q => num (p + q)
  end.

Definition nsub (a b : number) : number := nadd a (nopp b).

Definition nmul (a b : number) : number :=
  match a, b with
  | NaN, _ | _, NaN => NaN
  | Inf s, Inf t => Inf (xorb s t)
  | Inf s, Num q | Num q, Inf s => if Qzero q then NaN else Inf (xorb s (Qneg q))
  | Num p, Num q => num (p * q)
  end.

Definition ndiv (a b : number) : number :=
  match a, b with
  | NaN, _ | _, NaN => NaN
  | Inf _, Inf _ => NaN
  | Inf s, Num q => Inf (xorb s (Qneg q))
  | Num _, Inf _ => of_Z 0
  | Num p, Num q =>
      if Qzero q then (if Qzero p then NaN else Inf (Qneg p))
      else num (p / q)
  end.

(** [Math.ceil] *)
Definition nceil (a : number) : number :=
  match a with
  | Num q => of_Z (Qceiling q)
  | _ => a
  end.

(** The relational operator [a < b]; false as soon as one side is NaN. *)
Definition nlt (a b : number) : bool :=
  match a, b with
  | NaN, _ | _, NaN => false
  | Inf s, Inf t => s && negb t
  | Inf s, Num _ => s
  | Num _, Inf t => negb t
  | Num p, Num q => negb (Qle_bool q p)
  end.

(** ** Strings *)

Definition chars (s : string) : list ascii := list_ascii_of_string s.

(** White space and line terminators that have a code unit below 256:
    TAB, LF, VT, FF, CR, SP and NBSP. *)
Definition is_white_space (c : ascii) : bool :=
  let n := nat_of_ascii c in
  ((9 <=? n) && (n <=? 13)) || (n =? 32) || (n =? 160).

Fixpoint skip_white (cs : list ascii) : list ascii :=
  match cs with
  | c :: cs' => if is_white_space c then skip_white cs' else cs
  | [] => []
  end.

(** [String.prototype.trim] *)
Definition trim_chars (cs : list ascii) : list ascii :=
  rev (skip_white (rev (skip_white cs))).

Definition trim (s : string) : string :=
  string_of_list_ascii (trim_chars (chars s)).

(** Value of a character as a digit of the given radix. *)
Definition digit_value (radix : nat) (c : ascii) : option nat :=
  let n := nat_of_ascii c in
  let v :=
    if (48 <=? n) && (n <=? 57) then Some (n - 48)
    else if (97 <=? n) && (n <=? 122) then Some (n - 87)
    else if (65 <=? n) && (n <=? 90) then Some (n - 55)
    else None in
  match v with
  | Some d => if d <? radix then Some d else None
  | None => None
  end.

(** Longest prefix of digits, most significant first, and what follows. *)
Fixpoint span_digits (radix : nat) (cs : list ascii) : list nat * list ascii :=
  match cs with
  | c :: cs' =>
      match digit_value radix c with
      | Some d => let '(ds, rest) := span_digits radix cs' in (d :: ds, rest)
      | None => ([], cs)
      end
  | [] => ([], [])
  end.

Definition digits_value (radix : nat) (ds : list nat) : Z :=
  fold_left (fun acc d => (acc * Z.of_nat radix + Z.of_nat d)%Z) ds 0%Z.

Definition strip_sign (cs : list ascii) : bool * list ascii :=
  match cs with
  | "-"%char :: cs' => (true, cs')
  | "+"%char :: cs' => (false, cs')
  | _ => (false, cs)
  end.

Definition strip_hex_prefix (cs : list ascii) : option (list ascii) :=
  match cs with
  | "0"%char :: "x"%char :: cs' => Some cs'
  | "0"%char :: "X"%char :: cs' => Some cs'
  | _ => None
  end.

(** [parseInt(string)] with no radix argument. *)
Definition parseInt (s : string) : number :=
  let '(neg, cs) := strip_sign (skip_white (chars s)) in
  let '(radix, cs) :=
    match strip_hex_prefix cs with
    | Some cs' => (16, cs')
    | None => (10, cs)
    end in
  match fst (span_digits radix cs) with
  | [] => NaN
  | ds => let z := digits_value radix ds in of_Z (if neg then - z else z)
  end.

(** A string made of digits only (at least one), as their values. *)
Definition all_digits (radix : nat) (cs : list ascii) : option (list nat) :=
  match span_digits radix cs with
  | (d :: ds, []) => Some (d :: ds)
  | _ => None
  end.

(** [0x], [0o] and [0b] literals of the string-to-number grammar. *)
Definition non_decimal_literal (cs : list ascii) : option number :=
  match cs with
  | "0"%char :: p :: cs' =>
      let radix :=
        if (p =? "x")%char || (p =? "X")%char then Some 16
        else if (p =? "o")%char || (p =? "O")%char then Some 8
        else if (p =? "b")%char || (p =? "B")%char then Some 2
        else None in
      match radix with
      | Some r =>
          match all_digits r cs' with
          | Some ds => Some (of_Z (digits_value r ds))
          | None => None
          end
      | None => None
      end
  | _ => None
  end.

(** The exponent part [e±ddd], or nothing, up to the end of the string. *)
Definition exponent_part (cs : list ascii) : option Z :=
  match cs with
  | [] => Some 0%Z
  | c :: cs' =>
      if (c =? "e")%char || (c =? "E")%char then
        let '(neg, ds) := strip_sign cs' in
        match all_digits 10 ds with
        | Some ds => let z := digits_value 10 ds in Some (if neg then - z else z)%Z
        | None => None
        end
      else None
  end.

(** [Infinity], [ddd], [ddd.], [ddd.ddd] or [.ddd], each with an optional
    exponent. *)
Definition unsigned_decimal_literal (cs : list ascii) : option number :=
  if String.eqb (string_of_list_ascii cs) "Infinity" then Some (Inf false)
  else
    let '(ip, rest) := span_digits 10 cs in
    let '(fp, rest) :=
      match rest with
      | "."%char :: rest' => span_digits 10 rest'
      | _ => ([], rest)
      end in
    match ip ++ fp with
    | [] => None
    | ds =>
        match exponent_part rest with
        | Some e =>
            Some (num (inject_Z (digits_value 10 ds)
                       * Qpower (inject_Z 10) (e - Z.of_nat (length fp))))
        | None => None
        end
    end.

(** The conversion a string undergoes as an operand of [/]: empty or
    blank is zero, a numeric literal is its value, all else is NaN. *)
Definition ToNumber (s : string) : number :=
  match trim_chars (chars s) with
  | [] => of_Z 0
  | cs =>
      match non_decimal_literal cs with
      | Some n => n
      | None =>
          let '(neg, cs') := strip_sign cs in
          match unsigned_decimal_literal cs' with
          | Some n => if neg then nopp n else n
          | None => NaN
          end
      end
  end.

(** ** Exceptions, files and the user interface *)

Definition exn : Type := string.

Inductive result (A : Type) : Type :=
| Ok (a : A)
| Throw (e : exn).
Arguments Ok {A} a.
Arguments Throw {A} e.

(** What a synchronous read of each path produces at one instant: the
    content of the file, or the exception of a failed read (missing
    node, I/O error). *)
Definition filesystem : Type := string -> result string.

(** Text of a label: the template [`${n}%`], or [`${n.toFixed(0)}%`]. *)
Inductive label : Type :=
| Percent (n : number)
| PercentFixed0 (n : number).

Inductive ui_effect : Type :=
| MeterSetUsage (usage : list number)
| SetText (widget : string) (text : label)
| QueueRepaint
| LogError (e : exn).

(** The fields of a monitor that the sampler touches; [ui] records the
    calls made on widgets, oldest first. *)
Record monitor : Type := Monitor {
  history : list number;
  refreshTimer : nat;
  ui : list ui_effect
}.

(** Value returned by the timer callback. *)
Inductive retval : Type := RetTrue | RetUndefined.

Inductive outcome : Type :=
| Returns (v : retval) (m : monitor)
| Throws (e : exn) (m : monitor)
| Diverges.

(** The monitor a call leaves behind, when it ends. *)
Definition final (o : outcome) : option monitor :=
  match o with
  | Returns _ m | Throws _ m => Some m
  | Diverges => None
  end.

(** ** The bounded history *)

Section History.
Context {A : Type}.
Variable HISTORY_MAX_SIZE : nat.

(** [while (history.length >= HISTORY_MAX_SIZE) history.shift();]
    [shift] on an empty array removes nothing. *)
Fixpoint shift_while (fuel : nat) (h : list A) : option (list A) :=
  match fuel with
  | 0 => None
  | S fuel' =>
      if HISTORY_MAX_SIZE <=? length h then shift_while fuel' (tail h)
      else Some h
  end.

(** The loop either exits within [length h + 1] tests or never does
    (see [shift_while_diverges] and [evict_terminates]). *)
Definition evict (h : list A) : option (list A) :=
  shift_while (S (length h)) h.

(** The loop followed by [history.push(x)]. *)
Definition push_history (h : list A) (x : A) : option (list A) :=
  match evict h with
  | Some h' => Some (h' ++ [x])
  | None => None
  end.
End History.

(** ** GLib timeout sources *)

Record glib : Type := GLib {
  sources : gset nat;
  last_id : nat
}.

(** [GLib.timeout_add]: a new source with a fresh, non-zero id. *)
Definition timeout_add (g : glib) : nat * glib :=
  let id := S (last_id g) in
  (id, {| sources := {[id]} ∪ sources g; last_id := id |}).

(** [GLib.source_remove] *)
Definition source_remove (id : nat) (g : glib) : glib :=
  {| sources := sources g ∖ {[id]}; last_id := last_id g |}.

(** Both variants of the monitor share these two methods verbatim. *)
Definition _startTimers (mg : monitor * glib) : monitor * glib :=
  let '(m, g) := mg in
  (* Clear the history chart *)
  let m := {| history := []; refreshTimer := refreshTimer m; ui := ui m |} in
  if refreshTimer m =? 0 then
    let '(id, g') := timeout_add g in
    ({| history := history m; refreshTimer := id; ui := ui m |}, g')
  else (m, g).

Definition _stopTimers (mg : monitor * glib) : monitor * glib :=
  let '(m, g) := mg in
  if negb (refreshTimer m =? 0) then
    ({| history := history m; refreshTimer := 0; ui := ui m |},
     source_remove (refreshTimer m) g)
  else (m, g).

(** One expiry of the timeout source [id].  GLib calls the callback and
    keeps the source only if the callback returns true; any other return
    value destroys the source, and so does an exception that escapes the
    callback (GJS logs it and hands GLib a false value). *)
Definition dispatch (tick : filesystem -> monitor -> outcome)
    (id : nat) (fs : filesystem) (mg : monitor * glib) : option (monitor * glib) :=
  let '(m, g) := mg in
  if decide (id ∈ sources g) then
    match tick fs m with
    | Returns RetTrue m' => Some (m', g)
    | Returns RetUndefined m' | Throws _ m' => Some (m', source_remove id g)
    | Diverges => None
    end
  else Some (m, g).

(** Successive calls of the callback, one file system snapshot each. *)
Fixpoint run (tick : filesystem -> monitor -> outcome)
    (fss : list filesystem) (m : monitor) : option monitor :=
  match fss with
  | [] => Some m
  | fs :: fss' =>
      match final (tick fs m) with
      | Some m' => run tick fss' m'
      | None => None
      end
  end.

(** ** The chart *)

Section Chart.
(** The geometry uses [+ - * /] and [Math.ceil] only; it is written
    over any type of numbers that has them, binary64 included. *)
Context {N : Type}.
Variables (add sub mul div : N -> N -> N) (ceil : N -> N) (int : nat -> N).

Inductive cairo_op : Type :=
| SetSourceColor (color : string)
| Rectangle (x y w h : N)
| Fill
| MoveTo (x y : N)
| LineTo (x y : N)
| ClosePath
| Dispose.

Variable HISTORY_MAX_SIZE : nat.
(** Height of a point above the bottom edge, from the sample and the
    height of the chart; the two variants differ here only. *)
Variable pointHeight : N -> N -> N.

(** [for (let i = 0; i < history.length; i++) { ... ctx.lineTo(x, y); }],
    entered at index [i] with the samples from [i] on. *)
Fixpoint plot (height xStart pointSpacing : N) (i : nat) (samples : list N)
    (ctx : list cairo_op) : list cairo_op :=
  match samples with
  | [] => ctx
  | s :: samples' =>
      let x := add xStart (mul pointSpacing (int i)) in
      let y := sub height (pointHeight s height) in
      plot height xStart pointSpacing (S i) samples' (ctx ++ [LineTo x y])
  end.

Definition repaintHistory (fg bg : string) (width height : N)
    (history : list N) : list cairo_op :=
  let pointSpacing := div width (sub (int HISTORY_MAX_SIZE) (int 1)) in
  let xStart :=
    mul (sub (int HISTORY_MAX_SIZE) (int (length history))) pointSpacing in
  let ctx :=
    [SetSourceColor bg; Rectangle (int 0) (int 0) width height; Fill;
     SetSourceColor fg; MoveTo xStart height] in
  let ctx := plot height xStart pointSpacing 0 history ctx in
  ctx ++ [LineTo (add xStart (mul (sub (int (length history)) (int 1)) pointSpacing))
                 height;
          ClosePath; Fill; Dispose].

(** The points of the path, in drawing order. *)
Definition vertex (op : cairo_op) : option (N * N) :=
  match op with
  | MoveTo x y | LineTo x y => Some (x, y)
  | _ => None
  end.

Definition vertices (ctx : list cairo_op) : list (N * N) := omap vertex ctx.

(** Where the loop puts the point of sample [s], the [i]-th. *)
Definition point (height xStart pointSpacing : N) (i : nat) (s : N) : N * N :=
  (add xStart (mul pointSpacing (int i)), sub height (pointHeight s height)).
End Chart.

Arguments SetSourceColor {N} color.
Arguments Fill {N}.
Arguments ClosePath {N}.
Arguments Dispose {N}.

(** ** lib/gpu.js *)

Module Gpu.
Definition gpu_busy_percent : string :=
  "/sys/class/drm/card1/device/gpu_busy_percent".
Definition mem_busy_percent : string :=
  "/sys/class/drm/card1/device/mem_busy_percent".

Definition _refreshCharts (HISTORY_MAX_SIZE : nat)
    (fs : filesystem) (m : monitor) : outcome :=
  match fs gpu_busy_percent with
  | Throw e => Throws e m
  | Ok content =>
      let currentGpuUsage := parseInt content in
      match fs mem_busy_percent with
      | Throw e => Throws e m
      | Ok content =>
          let currentGpuMemUsage := parseInt content in
          let ui1 :=
            ui m ++ [MeterSetUsage [currentGpuUsage; currentGpuMemUsage];
                     SetText "usage" (Percent currentGpuUsage);
                     SetText "menuGpuUsage" (Percent currentGpuUsage);
                     SetText "menuGpuMemUsage" (Percent currentGpuMemUsage)] in
          match push_history HISTORY_MAX_SIZE (history m) currentGpuUsage with
          | Some h =>
              Returns RetTrue
                {| history := h; refreshTimer := refreshTimer m;
                   ui := ui1 ++ [QueueRepaint] |}
          | None => Diverges
          end
      end
  end.

Definition refresh := _refreshCharts.

(** [Math.ceil(this.history[i] * height / 100)] *)
Definition pointHeight {N : Type} (mul div : N -> N -> N) (ceil : N -> N)
    (int : nat -> N) (sample height : N) : N :=
  ceil (div (mul sample height) (int 100)).

Definition _repaintHistory (HISTORY_MAX_SIZE : nat) (fg bg : string)
    (width height : number) (m : monitor) : list cairo_op :=
  repaintHistory nadd nsub nmul ndiv of_nat HISTORY_MAX_SIZE
    (pointHeight nmul ndiv nceil of_nat) fg bg width height (history m).
End Gpu.

(** ** The legacy variant of the monitor *)

Module GpuLegacy.
Definition gpu_busy_percent : string :=
  "/sys/class/drm/card0/device/gpu_busy_percent".
Definition mem_busy_percent : string :=
  "/sys/class/drm/card0/device/mem_busy_percent".

Definition logError (e : exn) (m : monitor) : monitor :=
  {| history := history m; refreshTimer := refreshTimer m;
     ui := ui m ++ [LogError e] |}.

Definition _refreshCharts (HISTORY_MAX_SIZE : nat)
    (fs : filesystem) (m : monitor) : outcome :=
  match fs gpu_busy_percent with
  | Throw e => Returns RetUndefined (logError e m)
  | Ok content =>
      let contentStr := trim content in
      let currentGpuUsage := ndiv (ToNumber contentStr) (of_nat 100) in
      match fs mem_busy_percent with
      | Throw e => Returns RetUndefined (logError e m)
      | Ok content =>
          let contentStr := trim content in
          let currentGpuMemUsage := ndiv (ToNumber contentStr) (of_nat 100) in
          let ui1 :=
            ui m ++ [MeterSetUsage [nmul currentGpuUsage (of_nat 100);
                                    nmul currentGpuMemUsage (of_nat 100)];
                     SetText "usage" (PercentFixed0 (nmul currentGpuUsage (of_nat 100)));
                     SetText "menuGpuUsage" (Percent (nmul currentGpuUsage (of_nat 100)))] in
          match push_history HISTORY_MAX_SIZE (history m) currentGpuUsage with
          | Some h =>
              Returns RetTrue
                {| history := h; refreshTimer := refreshTimer m;
                   ui := ui1 ++ [QueueRepaint] |}
          | None => Diverges
          end
      end
  end.

Definition refresh := _refreshCharts.

(** [Math.ceil(this.history[i] * height)] *)
Definition pointHeight {N : Type} (mul : N -> N -> N) (ceil : N -> N)
    (sample height : N) : N :=
  ceil (mul sample height).

Definition _repaintHistory (HISTORY_MAX_SIZE : nat) (fg bg : string)
    (width height : number) (m : monitor) : list cairo_op :=
  repaintHistory nadd nsub nmul ndiv of_nat HISTORY_MAX_SIZE
    (pointHeight nmul nceil) fg bg width height (history m).
End GpuLegacy.

(** ** shared.js *)

Module Shared.
Definition ONE_MB_IN_B : number := of_Z 1000000.
Definition TEN_MB_IN_B : number := of_Z 10000000.
Definition ONE_GB_IN_B : number := of_Z 1000000000.
Definition TEN_GB_IN_B : number := of_Z 10000000000.
Definition ONE_TB_IN_B : number := of_Z 1000000000000.
Definition TEN_TB_IN_B : number := of_Z 10000000000000.

(** A template string: plain text, or [`${x.toFixed(digits)}`] followed
    by plain text.  The digits that [toFixed] prints are those of a
    binary64 value and are left to the reader of the template. *)
Inductive text : Type :=
| Lit (s : string)
| Fixed (x : number) (fractionDigits : nat) (rest : string).

(** What [bytesToHumanString] returns: its argument when that is NaN,
    a string otherwise. *)
Inductive human : Type :=
| Same (bytes : number)
| Str (t : text).

Definition bytesToHumanString (bytes : number) (unit : string)
    (imprecise : bool) : human :=
  if isNaN bytes then Same bytes
  else
    let quantity := bytes in
    let precision := 1 in
    let precision := if imprecise then 0 else precision in
    let suffix := "B" in
    let '(quantity, suffix) :=
      if String.eqb unit "bits" then (nmul quantity (of_Z 8), "b")
      else (quantity, suffix) in
    if nlt quantity (of_Z 1) then
      Str (Lit ("0 K" +:+ suffix))
    else if nlt quantity (of_Z 1000) then
      Str (Lit ("< 1 K" +:+ suffix))
    else if nlt quantity ONE_MB_IN_B then
      Str (Fixed (ndiv quantity (of_Z 1000)) 0 (" K" +:+ suffix))
    else if nlt quantity TEN_MB_IN_B then
      Str (Fixed (ndiv quantity ONE_MB_IN_B) precision (" M" +:+ suffix))
    else if nlt quantity ONE_GB_IN_B then
      Str (Fixed (ndiv quantity ONE_MB_IN_B) 0 (" M" +:+ suffix))
    else if nlt quantity TEN_GB_IN_B then
      Str (Fixed (ndiv quantity ONE_GB_IN_B) precision (" G" +:+ suffix))
    else if nlt quantity ONE_TB_IN_B then
      Str (Fixed (ndiv quantity ONE_GB_IN_B) 0 (" G" +:+ suffix))
    else if nlt quantity TEN_TB_IN_B then
      Str (Fixed (ndiv quantity ONE_TB_IN_B) precision (" T" +:+ suffix))
    else
      Str (Fixed (ndiv quantity ONE_TB_IN_B) 0 (" T" +:+ suffix)).

(** *** Devices *)

Inductive device_class : Type := GpuDeviceClass | AmdGpuClass.

(** [name] is [None] while the field holds [null]. *)
Record GpuDevice : Type := Device {
  class : device_class;
  sysfsPath : string;
  name : option string
}.

Definition new_GpuDevice (sysfsPath : string) : GpuDevice :=
  {| class := GpuDeviceClass; sysfsPath := sysfsPath; name := None |}.

Definition new_AmdGpu (sysfsPath : string) : GpuDevice :=
  {| class := AmdGpuClass; sysfsPath := sysfsPath; name := None |}.

(** A reading is [None] for [null]. *)
Definition getUsage (fs : filesystem) (d : GpuDevice) : result (option number) :=
  match class d with
  | GpuDeviceClass => Ok None
  | AmdGpuClass =>
      match fs (sysfsPath d +:+ "/device/gpu_busy_percent") with
      | Ok content => Ok (Some (parseInt content))
      | Throw e => Throw e
      end
  end.

Definition getMemUsage (fs : filesystem) (d : GpuDevice) : result (option number) :=
  match class d with
  | GpuDeviceClass => Ok None
  | AmdGpuClass =>
      match fs (sysfsPath d +:+ "/device/mem_busy_percent") with
      | Ok content => Ok (Some (parseInt content))
      | Throw e => Throw e
      end
  end.

Definition getTemperature (d : GpuDevice) : option number := None.

(** [this.name || this.sysfsPath]: [null] and the empty string are
    both falsy. *)
Definition getName (d : GpuDevice) : string :=
  match name d with
  | Some n => if String.eqb n "" then sysfsPath d else n
  | None => sysfsPath d
  end.

Definition isOK (fs : filesystem) (d : GpuDevice) : bool :=
  match getUsage fs d with
  | Ok (Some _) => true
  | Ok None => false
  | Throw _ => false
  end.

(** *** Name lookup *)

(** How the [lspci] child process behaves: it cannot be started, the
    wait for its output fails, or it ends with an exit status and what
    it wrote on standard output. *)
Inductive subprocess : Type :=
| SpawnFails (e : exn)
| CommunicateFails (err : exn)
| Exits (successful : bool) (stdout : string).

Inductive promise (A : Type) : Type :=
| Pending
| Resolved (v : A)
| Rejected (reason : string).
Arguments Pending {A}.
Arguments Resolved {A} v.
Arguments Rejected {A} reason.

(** [s.split('\n')] on characters. *)
Fixpoint split_lines (cs : list ascii) : list (list ascii) :=
  match cs with
  | [] => [[]]
  | c :: cs' =>
      if (c =? "010")%char then [] :: split_lines cs'
      else
        match split_lines cs' with
        | l :: ls => (c :: l) :: ls
        | [] => [[c]]
        end
  end.

Definition lines (s : string) : list string :=
  map string_of_list_ascii (split_lines (chars s)).

(** [s.substring(8)] *)
Definition substring_from (n : nat) (s : string) : string :=
  string_of_list_ascii (drop n (chars s)).

(** The [for] loop over the lines of the output: each [Device:] line
    overwrites [name]; only the first [resolve] settles the promise. *)
Fixpoint scan_lines (ls : list string) (name : option string)
    (p : promise string) : option string * promise string :=
  match ls with
  | [] => (name, p)
  | line :: ls' =>
      if String.eqb (String.substring 0 7 line) "Device:" then
        let n := substring_from 8 line in
        scan_lines ls' (Some n)
          (match p with Pending => Resolved n | _ => p end)
      else scan_lines ls' name p
  end.

Definition with_name (d : GpuDevice) (n : option string) : GpuDevice :=
  {| class := class d; sysfsPath := sysfsPath d; name := n |}.

(** [lookupName]: the device afterwards and the promise once the child
    process is over; [None] for the [undefined] of the base class. *)
Definition lookupName (fs : filesystem) (spawn : list string -> subprocess)
    (d : GpuDevice) : GpuDevice * option (promise string) :=
  match class d with
  | GpuDeviceClass => (d, None)
  | AmdGpuClass =>
      match fs (sysfsPath d +:+ "/device/vendor") with
      | Throw e => (d, Some (Rejected ("lookupName threw exception: " +:+ e)))
      | Ok vendor =>
          match fs (sysfsPath d +:+ "/device/device") with
          | Throw e => (d, Some (Rejected ("lookupName threw exception: " +:+ e)))
          | Ok device =>
              match spawn ["lspci"; "-v"; "-mm"; "-d"; vendor +:+ ":" +:+ device] with
              | SpawnFails e =>
                  (d, Some (Rejected ("lookupName threw exception: " +:+ e)))
              | CommunicateFails err =>
                  (d, Some (Rejected ("proc promise caught: " +:+ err)))
              | Exits true stdout =>
                  let '(n, p) := scan_lines (lines stdout) (name d) Pending in
                  (with_name d n, Some p)
              | Exits false _ =>
                  (d, Some (Rejected "proc was not successful"))
              end
          end
      end
  end.

(** *** Discovery *)

(** The pieces of the regular expression [/^card[0-9]$/]. *)
Inductive atom : Type :=
| Chr (c : ascii)
| Range (lo hi : ascii).

Definition atom_matches (a : atom) (c : ascii) : bool :=
  match a with
  | Chr c' => (c' =? c)%char
  | Range lo hi =>
      (nat_of_ascii lo <=? nat_of_ascii c) && (nat_of_ascii c <=? nat_of_ascii hi)
  end.

(** A sequence of atoms between [^] and [$]: the whole input, one
    character per atom. *)
Fixpoint match_anchored (re : list atom) (cs : list ascii) : bool :=
  match re, cs with
  | [], [] => true
  | a :: re', c :: cs' => atom_matches a c && match_anchored re' cs'
  | _, _ => false
  end.

Definition card_regex : list atom :=
  [Chr "c"; Chr "a"; Chr "r"; Chr "d"; Range "0" "9"].

Definition regex_test (re : list atom) (s : string) : bool :=
  match_anchored re (chars s).

Definition basePath : string := "/sys/class/drm/".

(** The body of the [for] loop. *)
Definition visit (fs : filesystem) (collection : gmap string GpuDevice)
    (entry : string) : gmap string GpuDevice :=
  if regex_test card_regex entry then
    let sysfsPath := basePath +:+ entry in
    let device := new_AmdGpu sysfsPath in
    if isOK fs device then <[sysfsPath := device]> collection
    else collection
  else collection.

(** [listing] is how the promise of [File(basePath).list()] settles. *)
Definition findGpuDevices (listing : result (list string)) (fs : filesystem)
    : promise (gmap string GpuDevice) :=
  match listing with
  | Ok content => Resolved (fold_left (visit fs) content ∅)
  | Throw err => Rejected err
  end.

(** The entries the name filter lets through. *)
Definition candidates (content : list string) : list string :=
  filter (fun entry => regex_test card_regex entry = true) content.

(** *** Processes *)

(** [s.lastIndexOf(c)]; [None] stands for -1. *)
Fixpoint lastIndexOf (c : ascii) (cs : list ascii) : option nat :=
  match cs with
  | [] => None
  | x :: cs' =>
      match lastIndexOf c cs' with
      | Some i => Some (S i)
      | None => if (x =? c)%char then Some 0 else None
      end
  end.

(** The loop that copies [procState.cmd] up to its first zero. *)
Fixpoint until_zero (cmd : list ascii) : list ascii :=
  match cmd with
  | [] => []
  | c :: cmd' => if (c =? "000")%char then [] else c :: until_zero cmd'
  end.

(** [getProcessName], from what GTop answers for the pid: [args] is the
    argument string ([None] when there is none) and [procState_cmd] the
    [cmd] field of the process state, one code unit per element ([None]
    when the field is missing). *)
Definition getProcessName (args : option string)
    (procState_cmd : option (list ascii)) : string :=
  let cmd : list ascii := [] in
  let cmd :=
    match args with
    | Some (String a args') =>
        let args := a :: chars args' in
        match lastIndexOf "/" args with
        | Some lastSeparator => drop (lastSeparator + 1) args
        | None => args
        end
    | _ => cmd
    end in
  let cmd :=
    match cmd with
    | [] =>
        match procState_cmd with
        | Some procState_cmd =>
            let str := until_zero procState_cmd in
            match str with
            | [] => cmd
            | _ => "["%char :: str ++ ["]"%char]
            end
        | None => cmd
        end
    | _ => cmd
    end in
  string_of_list_ascii (take 35 cmd).

(** *** Partitions *)

(** An entry of [Gio.unix_mount_points_get()]. *)
Record mount_point : Type := MountPoint {
  get_device_path : string;
  get_mount_path : string;
  is_loopback : bool
}.

(** A [Map] from strings to strings, in insertion order. *)
Fixpoint map_get (k : string) (m : list (string * string)) : option string :=
  match m with
  | [] => None
  | (k', v) :: m' => if String.eqb k' k then Some v else map_get k m'
  end.

(** [Map.prototype.set]: a key that is present keeps its place. *)
Fixpoint map_set (k v : string) (m : list (string * string)) : list (string * string) :=
  match m with
  | [] => [(k, v)]
  | (k', v') :: m' =>
      if String.eqb k' k then (k, v) :: m' else (k', v') :: map_set k v m'
  end.

(** The body of the [forEach]; [unix_mount_at] tells whether GIO finds
    a mount at a path. *)
Definition visit_mount (unix_mount_at : string -> bool)
    (mountMap : list (string * string)) (entry : mount_point)
    : list (string * string) :=
  let devPath := get_device_path entry in
  let mountPath := get_mount_path entry in
  if negb (is_loopback entry) then
    let shortestPath := map_get devPath mountMap in
    if match shortestPath with
       | None => true
       | Some shortestPath => String.length mountPath <? String.length shortestPath
       end
    then
      if unix_mount_at mountPath then map_set devPath mountPath mountMap
      else mountMap
    else mountMap
  else mountMap.

(** [getPartitions]; [mountPoints] is [None] when GIO returns nothing
    or no list of entries. *)
Definition getPartitions (mountPoints : option (list mount_point))
    (unix_mount_at : string -> bool) : list string :=
  match mountPoints with
  | None => []
  | Some entries =>
      let mountMap := fold_left (visit_mount unix_mount_at) entries [] in
      map snd mountMap
  end.
End Shared.

(** ** The two variants side by side *)

Inductive variant : Type := Current | Legacy.

Definition refreshCharts (r : variant) : nat -> filesystem -> monitor -> outcome :=
  match r with
  | Current => Gpu._refreshCharts
  | Legacy => GpuLegacy._refreshCharts
  end.

Definition gpu_busy_percent (r : variant) : string :=
  match r with
  | Current => Gpu.gpu_busy_percent
  | Legacy => GpuLegacy.gpu_busy_percent
  end.

Definition mem_busy_percent (r : variant) : string :=
  match r with
  | Current => Gpu.mem_busy_percent
  | Legacy => GpuLegacy.mem_busy_percent
  end.

(** The value each variant computes from the content of a metric file. *)
Definition parsed (r : variant) (content : string) : number :=
  match r with
  | Current => parseInt content
  | Legacy => ndiv (ToNumber (trim content)) (of_nat 100)
  end.

(** The sample of a tick whose two reads both return a content; [None]
    when one of the reads throws. *)
Definition sample (r : variant) (fs : filesystem) : option number :=
  match fs (gpu_busy_percent r), fs (mem_busy_percent r) with
  | Ok content, Ok _ => Some (parsed r content)
  | _, _ => None
  end.

(** The last [n] elements of a list, in order. *)
Definition lastn {A : Type} (n : nat) (l : list A) : list A :=
  drop (length l - n) l.

(** A monitor with a new history and a new record of widget calls. *)
Definition with_history (m : monitor) (h : list number) (u : list ui_effect) : monitor :=
  {| history := h; refreshTimer := refreshTimer m; ui := u |}.

(** The content [87] followed by a line feed. *)
Definition content_87 : string := String "8" (String "7" (String "010" EmptyString)).

(** The scenario of six reads with room for five. *)
Definition reads_10_to_60 : list filesystem :=
  map (fun content _ => Ok content) ["10"; "20"; "30"; "40"; "50"; "60"].

(** Whether a text begins, after white space and one optional sign,
    with a decimal digit. *)
Definition starts_with_digit (s : string) : bool :=
  match snd (strip_sign (skip_white (chars s))) with
  | c :: _ => match digit_value 10 c with Some _ => true | None => false end
  | [] => false
  end.

(** Decimal digits. *)
Definition is_digit (c : ascii) : bool :=
  (48 <=? nat_of_ascii c) && (nat_of_ascii c <=? 57).

(** ** The life of a monitor *)

(** The part of [_init] that concerns the sampler: an empty history, no
    timer, then [_startTimers]. *)
Definition _init (g : glib) : monitor * glib :=
  _startTimers ({| history := []; refreshTimer := 0; ui := [] |}, g).

(** The handler connected to [notify::visible]. *)
Definition notify_visible (visible : bool) (mg : monitor * glib) : monitor * glib :=
  if visible then _startTimers mg else _stopTimers mg.

Definition destroy (mg : monitor * glib) : monitor * glib := _stopTimers mg.

(** What can happen to a monitor after its construction. *)
Inductive event : Type :=
| Visible (visible : bool)
| Expire (fs : filesystem)
| Refresh (fs : filesystem)
| Destroy.

(** [Expire] is an expiry of the source whose handle the monitor holds;
    [Refresh] is a call of [refresh()] by the host. *)
Definition step (r : variant) (MAX : nat) (e : event) (mg : monitor * glib)
    : option (monitor * glib) :=
  match e with
  | Visible visible => Some (notify_visible visible mg)
  | Expire fs => dispatch (refreshCharts r MAX) (refreshTimer (fst mg)) fs mg
  | Refresh fs =>
      match final (refreshCharts r MAX fs (fst mg)) with
      | Some m' => Some (m', snd mg)
      | None => None
      end
  | Destroy => Some (destroy mg)
  end.

Fixpoint steps (r : variant) (MAX : nat) (es : list event) (mg : monitor * glib)
    : option (monitor * glib) :=
  match es with
  | [] => Some mg
  | e :: es' =>
      match step r MAX e mg with
      | Some mg' => steps r MAX es' mg'
      | None => None
      end
  end.

(** No event of the list is a tick one of whose reads throws. *)
Definition all_reads_succeed (r : variant) (es : list event) : Prop :=
  Forall (fun e => match e with
                   | Expire fs | Refresh fs => sample r fs <> None
                   | _ => True
                   end) es.

(** Source ids in use are positive and at most the last id handed out. *)
Definition fresh_ids (g : glib) : Prop :=
  forall id, id ∈ sources g -> 1 <= id /\ id <= last_id g.

(** The character of a decimal digit. *)
Definition digit_char (d : nat) : ascii := ascii_of_nat (48 + d).

(** The text of a reading: decimal digits and a line feed. *)
Definition reading (ds : list nat) : string :=
  string_of_list_ascii (map digit_char ds ++ ["010"%char]).

(** The quantity and the suffix [bytesToHumanString] works with. *)
Definition quantity_of (bytes : Q) (unit : string) : Q :=
  if String.eqb unit "bits" then (bytes * 8)%Q else bytes.

Definition suffix_of (unit : string) : string :=
  if String.eqb unit "bits" then "b" else "B".

(** The remainders of the [Device:] lines of a text, in order. *)
Definition device_names (stdout : string) : list string :=
  map (Shared.substring_from 8)
    (filter (fun line => String.eqb (String.substring 0 7 line) "Device:" = true)
       (Shared.lines stdout)).

(** What every event keeps true of a monitor built by [_init] when the
    sources of [g0] were there before it. *)
Definition owns_at_most_its_handle (g0 : glib) (mg : monitor * glib) : Prop :=
  let '(m, g) := mg in
  fresh_ids g
  /\ last_id g0 <= last_id g
  /\ (refreshTimer m = 0 \/ last_id g0 < refreshTimer m <= last_id g)
  /\ (forall id, id ∈ sources g0 -> id ∈ sources g)
  /\ (forall id, id ∈ sources g -> id ∈ sources g0 \/ id = refreshTimer m).

(** An entry that [getPartitions] may report: not a loopback device,
    and mounted. *)
Definition reportable (unix_mount_at : string -> bool) (e : Shared.mount_point) : Prop :=
  Shared.is_loopback e = false /\ unix_mount_at (Shared.get_mount_path e) = true.

(** [path] is the mount path of a reportable entry of [device], and no
    reportable entry of [device] has a shorter one. *)
Definition shortest_mount (unix_mount_at : string -> bool)
    (entries : list Shared.mount_point) (device path : string) : Prop :=
  (exists e, e ∈ entries /\ reportable unix_mount_at e
             /\ Shared.get_device_path e = device
             /\ Shared.get_mount_path e = path)
  /\ forall e, e ∈ entries -> reportable unix_mount_at e ->
                Shared.get_device_path e = device ->
                String.length path <= String.length (Shared.get_mount_path e).

(** The names that read [card] followed by digits only, one digit or
    more. *)
Definition cardN_digits_only (s : string) : bool :=
  match chars s with
  | "c"%char :: "a"%char :: "r"%char :: "d"%char :: d :: ds =>
      forallb is_digit (d :: ds)
  | _ => false
  end.

(** * Properties *)

(** ** The bounded history *)

Section HistoryFacts.
Context {A : Type}.
Implicit Types (h : list A) (x : A).

(** With a bound of zero the loop test holds for ever. *)
Lemma shift_while_diverges fuel h : shift_while (A := A) 0 fuel h = None.
Proof.
  revert h. induction fuel as [|fuel IH]; intros h; simpl; [reflexivity | apply IH].
Qed.

Lemma shift_while_exits MAX fuel h :
  1 <= MAX -> length h < fuel ->
  shift_while MAX fuel h = Some (drop (length h + 1 - MAX) h).
Proof.
  intros HMAX. revert h. induction fuel as [|fuel IH]; intros h Hlen; [lia|].
  simpl. destruct (Nat.leb_spec MAX (length h)) as [Hge|Hlt].
  - destruct h as [|a t]; [simpl in Hge; lia|].
    cbn [tail length] in *. rewrite IH by lia.
    replace (S (length t) + 1 - MAX) with (S (length t + 1 - MAX)) by lia.
    reflexivity.
  - replace (length h + 1 - MAX) with 0 by lia. reflexivity.
Qed.

(** More fuel never changes the result of a loop that has exited. *)
Lemma shift_while_fuel MAX fuel fuel' h h' :
  shift_while MAX fuel h = Some h' -> fuel <= fuel' ->
  shift_while MAX fuel' h = Some h'.
Proof.
  revert fuel' h. induction fuel as [|fuel IH]; intros fuel' h; simpl; [discriminate|].
  intros H Hle. destruct fuel' as [|fuel']; [lia|]. simpl.
  destruct (MAX <=? length h); [apply IH; [assumption | lia] | assumption].
Qed.

Lemma evict_terminates MAX h :
  1 <= MAX -> evict MAX h = Some (drop (length h + 1 - MAX) h).
Proof. intros HMAX. apply shift_while_exits; [assumption | lia]. Qed.

Lemma push_history_lastn MAX h x :
  1 <= MAX -> push_history MAX h x = Some (lastn MAX (h ++ [x])).
Proof.
  intros HMAX. unfold push_history, lastn.
  rewrite evict_terminates by assumption.
  rewrite length_app. simpl.
  rewrite drop_app_le by lia. reflexivity.
Qed.

Lemma length_lastn n (l : list A) : length (lastn n l) = Nat.min n (length l).
Proof. unfold lastn. rewrite length_drop. lia. Qed.

Lemma lastn_all n (l : list A) : length l <= n -> lastn n l = l.
Proof. intros H. unfold lastn. replace (length l - n) with 0 by lia. reflexivity. Qed.

Lemma lastn_lastn_app n (l k : list A) :
  lastn n (lastn n l ++ k) = lastn n (l ++ k).
Proof.
  destruct (Nat.le_gt_cases (length l) n) as [Hle|Hgt].
  - rewrite (lastn_all n l) by assumption. reflexivity.
  - unfold lastn. rewrite !length_app, length_drop.
    destruct (Nat.le_gt_cases (length k) n) as [Hk|Hk].
    + rewrite !drop_app_le by (rewrite ?length_drop; lia).
      rewrite drop_drop. f_equal. f_equal. lia.
    + rewrite !drop_app_ge by (rewrite ?length_drop; lia).
      rewrite length_drop. f_equal. lia.
Qed.

Lemma lastn_app_long n (l k : list A) :
  n <= length k -> lastn n (l ++ k) = lastn n k.
Proof.
  intros Hk. unfold lastn. rewrite length_app.
  rewrite drop_app_ge by lia. f_equal. lia.
Qed.
End HistoryFacts.

(** ** One tick *)


(** A tick whose reads both return a content appends the value parsed
    from the first one, whatever that value is, and returns true. *)
Lemma tick_appends r MAX fs m c1 c2 :
  1 <= MAX ->
  fs (gpu_busy_percent r) = Ok c1 -> fs (mem_busy_percent r) = Ok c2 ->
  exists u, refreshCharts r MAX fs m =
            Returns RetTrue (with_history m (lastn MAX (history m ++ [parsed r c1])) u).
Proof.
  intros HMAX H1 H2.
  destruct r; cbn [refreshCharts gpu_busy_percent mem_busy_percent parsed] in *;
    unfold Gpu._refreshCharts, GpuLegacy._refreshCharts;
    rewrite H1, H2, push_history_lastn by assumption;
    eexists; reflexivity.
Qed.

Lemma tick_sample r MAX fs m x :
  1 <= MAX -> sample r fs = Some x ->
  exists u, refreshCharts r MAX fs m =
            Returns RetTrue (with_history m (lastn MAX (history m ++ [x])) u).
Proof.
  intros HMAX Hs. unfold sample in Hs.
  destruct (fs (gpu_busy_percent r)) as [c1|] eqn:H1; [|discriminate].
  destruct (fs (mem_busy_percent r)) as [c2|] eqn:H2; [|discriminate].
  injection Hs as <-. eapply tick_appends; eassumption.
Qed.

(** A tick one of whose reads throws changes neither the history nor the
    stored timer handle; the current variant lets the exception escape,
    the legacy one logs it and returns [undefined]. *)
Lemma tick_aborts r MAX fs m :
  sample r fs = None ->
  exists m', (match r with
              | Current => exists e, refreshCharts r MAX fs m = Throws e m'
              | Legacy => refreshCharts r MAX fs m = Returns RetUndefined m'
              end)
             /\ history m' = history m /\ refreshTimer m' = refreshTimer m.
Proof.
  intros Hs. unfold sample in Hs.
  destruct r; cbn [refreshCharts gpu_busy_percent mem_busy_percent] in *;
    unfold Gpu._refreshCharts, GpuLegacy._refreshCharts;
    destruct (fs _) as [c1|e1]; try destruct (fs _) as [c2|e2]; try discriminate;
    eexists; (split; [try eexists; reflexivity | split; reflexivity]).
Qed.

(** With a bound of zero the eviction loop of a successful tick never
    exits. *)
Lemma tick_diverges_at_zero r fs m x :
  sample r fs = Some x -> refreshCharts r 0 fs m = Diverges.
Proof.
  intros Hs. unfold sample in Hs.
  destruct r; cbn [refreshCharts gpu_busy_percent mem_busy_percent] in *;
    unfold Gpu._refreshCharts, GpuLegacy._refreshCharts;
    destruct (fs _) as [c1|e1]; try destruct (fs _) as [c2|e2]; try discriminate;
    unfold push_history, evict; rewrite shift_while_diverges; reflexivity.
Qed.

Lemma tick_ends r MAX fs m :
  1 <= MAX -> exists m', final (refreshCharts r MAX fs m) = Some m'.
Proof.
  intros HMAX. destruct (sample r fs) as [x|] eqn:Hs.
  - destruct (tick_sample r MAX fs m x HMAX Hs) as [u ->]. eexists; reflexivity.
  - destruct (tick_aborts r MAX fs m Hs) as (m' & H & _).
    exists m'. destruct r; [destruct H as [e ->] | rewrite H]; reflexivity.
Qed.

(** A run of successful ticks leaves the last [MAX] of the old entries
    followed by the new samples. *)
Lemma run_samples r MAX fss xs m :
  1 <= MAX -> length (history m) <= MAX ->
  mapM (sample r) fss = Some xs ->
  exists m', run (refreshCharts r MAX) fss m = Some m'
             /\ history m' = lastn MAX (history m ++ xs)
             /\ refreshTimer m' = refreshTimer m.
Proof.
  intros HMAX Hlen H. apply mapM_Some in H. revert m Hlen.
  induction H as [|fs x fss xs Hx _ IH]; intros m Hlen.
  - exists m. rewrite app_nil_r, lastn_all by assumption. auto.
  - destruct (tick_sample r MAX fs m x HMAX Hx) as [u Htick].
    cbn [run]. rewrite Htick. cbn [final].
    destruct (IH (with_history m (lastn MAX (history m ++ [x])) u)) as (m' & Hrun & Hh & Ht).
    + cbn [with_history history]. rewrite length_lastn. lia.
    + exists m'. split; [exact Hrun|]. split; [|exact Ht].
      rewrite Hh. cbn [with_history history].
      rewrite lastn_lastn_app, <- app_assoc. reflexivity.
Qed.

(** ** Claims about the sampler *)



(** C1. After more than [HISTORY_MAX_SIZE] successful ticks the history
    holds exactly the [HISTORY_MAX_SIZE] most recent samples, oldest
    first, and after every tick on the way its length is at most
    [HISTORY_MAX_SIZE].  Holds for both variants, for any bound of at
    least one. *)
Theorem history_retains_most_recent (r : variant) (MAX : nat) (m : monitor)
    (fss : list filesystem) (xs : list number) :
  1 <= MAX -> length (history m) <= MAX ->
  mapM (sample r) fss = Some xs ->
  MAX < length fss ->
  (exists m', run (refreshCharts r MAX) fss m = Some m'
              /\ history m' = drop (length xs - MAX) xs
              /\ length (history m') = MAX)
  /\ (forall k, exists mk, run (refreshCharts r MAX) (take k fss) m = Some mk
                         /\ length (history mk) <= MAX).
Proof.
  intros HMAX Hlen Hxs HN.
  assert (Hlenxs : length xs = length fss).
  { apply mapM_Some in Hxs. symmetry. eapply Forall2_length, Hxs. }
  split.
  - destruct (run_samples r MAX fss xs m HMAX Hlen Hxs) as (m' & Hrun & Hh & _).
    exists m'. split; [exact Hrun|].
    rewrite Hh, lastn_app_long by lia. unfold lastn.
    split; [reflexivity | rewrite length_drop; lia].
  - intros k.
    assert (Hk : mapM (sample r) (take k fss) = Some (take k xs)).
    { apply mapM_Some, Forall2_take, mapM_Some, Hxs. }
    destruct (run_samples r MAX _ _ m HMAX Hlen Hk) as (mk & Hrun & Hh & _).
    exists mk. split; [exact Hrun|]. rewrite Hh, length_lastn. lia.
Qed.

Lemma history_retains_most_recent_witness :
  exists m', run (refreshCharts Current 5) reads_10_to_60 (Monitor [] 0 []) = Some m'
             /\ history m' = map of_Z [20; 30; 40; 50; 60]%Z.
Proof.
  destruct (history_retains_most_recent Current 5 (Monitor [] 0 []) reads_10_to_60
              (map of_Z [10; 20; 30; 40; 50; 60]%Z)) as [(m' & Hrun & Hh & _) _].
  - lia.
  - simpl. lia.
  - reflexivity.
  - simpl. lia.
  - exists m'. split; [exact Hrun | exact Hh].
Defined.

(** A tick whose reads return the non-numeric content [abc] is not
    dropped: both variants append NaN to the history. *)
Lemma non_numeric_read_changes_history :
  let fs : filesystem := fun _ => Ok "abc" in
  let m := Monitor [of_Z 10] 1 [] in
  parsed Current "abc" = NaN /\ parsed Legacy "abc" = NaN
  /\ (exists m', refreshCharts Current 5 fs m = Returns RetTrue m'
                 /\ history m' = [of_Z 10; NaN] /\ history m' <> history m)
  /\ (exists m', refreshCharts Legacy 5 fs m = Returns RetTrue m'
                 /\ history m' = [of_Z 10; NaN] /\ history m' <> history m).
Proof.
  cbv zeta. split; [reflexivity|]. split; [reflexivity|].
  split; eexists; (split; [reflexivity|]); split; try reflexivity; discriminate.
Qed.

(** C2, as the code has it.  When a read of a tick throws (I/O error,
    missing device node) the tick ends, and leaves the contents of the
    history and the stored timer handle as they were. *)
Theorem failed_read_keeps_history (r : variant) (MAX : nat) (fs : filesystem)
    (m : monitor) :
  (exists e, fs (gpu_busy_percent r) = Throw e)
  \/ (exists e, fs (mem_busy_percent r) = Throw e) ->
  exists m', final (refreshCharts r MAX fs m) = Some m'
             /\ history m' = history m
             /\ refreshTimer m' = refreshTimer m.
Proof.
  intros Hfail.
  assert (Hs : sample r fs = None).
  { unfold sample. destruct Hfail as [[e ->]|[e ->]]; [reflexivity|].
    destruct (fs (gpu_busy_percent r)); reflexivity. }
  destruct (tick_aborts r MAX fs m Hs) as (m' & H & Hh & Ht).
  exists m'. split; [|split; assumption].
  destruct r; [destruct H as [e ->] | rewrite H]; reflexivity.
Qed.

Lemma failed_read_keeps_history_witness :
  exists m', final (refreshCharts Legacy 5 (fun _ => Throw "ENOENT")
                      (Monitor [of_Z 10; of_Z 20] 1 [])) = Some m'
             /\ history m' = [of_Z 10; of_Z 20]
             /\ refreshTimer m' = 1.
Proof.
  apply (failed_read_keeps_history Legacy 5 (fun _ => Throw "ENOENT")
           (Monitor [of_Z 10; of_Z 20] 1 [])).
  left. exists "ENOENT". reflexivity.
Defined.

(** What becomes of the timeout source when a read throws: the callback
    does not return true, so GLib destroys the source, while the
    monitor keeps the handle of the destroyed source. *)
Lemma failed_tick_destroys_source r MAX fs m g :
  sample r fs = None -> refreshTimer m ∈ sources g ->
  exists m', dispatch (refreshCharts r MAX) (refreshTimer m) fs (m, g)
             = Some (m', source_remove (refreshTimer m) g)
             /\ refreshTimer m' = refreshTimer m
             /\ refreshTimer m ∉ sources (source_remove (refreshTimer m) g).
Proof.
  intros Hs Hin. destruct (tick_aborts r MAX fs m Hs) as (m' & H & _ & Ht).
  exists m'. split; [|split; [exact Ht |]].
  2: { cbn. intros [_ Hn]%elem_of_difference. apply Hn, elem_of_singleton. reflexivity. }
  unfold dispatch. rewrite decide_True by assumption.
  destruct r; [destruct H as [e ->] | rewrite H]; reflexivity.
Qed.

Lemma successful_tick_keeps_source r MAX fs m g x :
  1 <= MAX -> sample r fs = Some x -> refreshTimer m ∈ sources g ->
  exists m', dispatch (refreshCharts r MAX) (refreshTimer m) fs (m, g) = Some (m', g).
Proof.
  intros HMAX Hs Hin. destruct (tick_sample r MAX fs m x HMAX Hs) as [u H].
  eexists. unfold dispatch. rewrite decide_True by assumption. rewrite H. reflexivity.
Qed.

(** ** start and stop *)

Lemma timeout_add_nonzero g : fst (timeout_add g) <> 0.
Proof. unfold timeout_add. cbn. lia. Qed.

(** Two calls of start in a row leave what one call leaves. *)
Lemma start_idempotent (s : monitor * glib) :
  _startTimers (_startTimers s) = _startTimers s.
Proof.
  destruct s as [m g]. unfold _startTimers. cbn.
  destruct (refreshTimer m =? 0) eqn:E; cbn; [reflexivity | rewrite E; reflexivity].
Qed.

(** Starting a running sampler that holds one sample empties its
    history. *)
Lemma start_while_running_clears_history :
  let m := Monitor [of_Z 10] 1 [] in
  let g := GLib {[1]} 1 in
  refreshTimer m <> 0
  /\ history (fst (_startTimers (m, g))) = []
  /\ _startTimers (m, g) <> (m, g).
Proof.
  cbv zeta. split; [cbn; lia|]. split; [reflexivity|].
  intros H. apply (f_equal (fun s => history (fst s))) in H. discriminate H.
Qed.

(** C3, as the code has it.  On a running sampler (non-zero handle)
    start creates no timer: the handle and the set of timeout sources
    stay as they are; the one thing it changes is the history, which it
    empties.  A second start in a row changes nothing more. *)
Theorem start_while_running (m : monitor) (g : glib) :
  refreshTimer m <> 0 ->
  _startTimers (m, g)
  = ({| history := []; refreshTimer := refreshTimer m; ui := ui m |}, g)
  /\ _startTimers (_startTimers (m, g)) = _startTimers (m, g).
Proof.
  intros Hrun. split; [|apply start_idempotent].
  unfold _startTimers. cbn.
  destruct (Nat.eqb_spec (refreshTimer m) 0); [contradiction | reflexivity].
Qed.

Lemma start_while_running_witness :
  _startTimers (Monitor [of_Z 10] 1 [], GLib {[1]} 1)
  = (Monitor [] 1 [], GLib {[1]} 1).
Proof.
  apply (start_while_running (Monitor [of_Z 10] 1 []) (GLib {[1]} 1)).
  cbn. lia.
Defined.



(** ** Parsing the content of a metric file *)


Lemma strip_hex_prefix_zero c cs cs' :
  strip_hex_prefix (c :: cs) = Some cs' -> c = "0"%char.
Proof.
  destruct c as [[] [] [] [] [] [] [] []]; cbn; try discriminate. reflexivity.
Qed.

(** [parseInt] finds no number in a text that does not begin with a
    digit; the empty text is one. *)
Lemma parseInt_not_numeric s : starts_with_digit s = false -> parseInt s = NaN.
Proof.
  unfold starts_with_digit, parseInt.
  destruct (strip_sign (skip_white (chars s))) as [neg cs]. cbn [snd].
  destruct cs as [|c cs]; [reflexivity|].
  destruct (digit_value 10 c) eqn:Hd; [discriminate|]. intros _.
  destruct (strip_hex_prefix (c :: cs)) as [cs'|] eqn:Hx.
  - apply strip_hex_prefix_zero in Hx. subst c. discriminate Hd.
  - cbn [span_digits]. rewrite Hd. reflexivity.
Qed.

(** A tick whose reads return the empty content is not dropped: the
    current variant appends NaN, the legacy one appends zero. *)
Lemma empty_read_changes_history :
  let fs : filesystem := fun _ => Ok "" in
  let m := Monitor [of_Z 10] 1 [] in
  (exists m', refreshCharts Current 5 fs m = Returns RetTrue m'
              /\ history m' = [of_Z 10; NaN] /\ history m' <> history m)
  /\ (exists m', refreshCharts Legacy 5 fs m = Returns RetTrue m'
                 /\ history m' = [of_Z 10; of_Z 0] /\ history m' <> history m).
Proof.
  cbv zeta.
  split; eexists; (split; [reflexivity|]); split; try reflexivity; discriminate.
Qed.

(** C6, as the code has it.  The content [87] followed by a line feed
    parses to the percentage 87 (the legacy variant keeps it as the
    fraction 87/100 and shows that fraction times 100).  A tick whose
    reads return any content at all, empty and non-numeric included, is
    not dropped: it returns true and appends the value parsed from the
    content, evicting from the front beyond [HISTORY_MAX_SIZE].  That
    value is NaN in the current variant when the content, after its
    leading white space and one optional sign, does not begin with a
    decimal digit (the empty content is such a content); in the legacy
    variant it is zero for the empty content. *)
Theorem parsed_value_is_appended (r : variant) (MAX : nat) (fs : filesystem)
    (m : monitor) (c1 c2 : string) :
  parsed Current content_87 = of_Z 87
  /\ nmul (parsed Legacy content_87) (of_nat 100) = of_Z 87
  /\ (starts_with_digit c1 = false -> parsed Current c1 = NaN)
  /\ parsed Legacy "" = of_Z 0
  /\ (1 <= MAX ->
      fs (gpu_busy_percent r) = Ok c1 -> fs (mem_busy_percent r) = Ok c2 ->
      exists m', refreshCharts r MAX fs m = Returns RetTrue m'
                 /\ history m' = lastn MAX (history m ++ [parsed r c1])).
Proof.
  split; [reflexivity|]. split; [reflexivity|].
  split; [apply parseInt_not_numeric|]. split; [reflexivity|].
  intros HMAX H1 H2.
  destruct (tick_appends r MAX fs m c1 c2 HMAX H1 H2) as [u ->].
  eexists. split; reflexivity.
Qed.

Lemma parsed_value_is_appended_witness :
  parsed Current "" = NaN
  /\ exists m', refreshCharts Current 5 (fun _ => Ok "") (Monitor [of_Z 10] 1 [])
                = Returns RetTrue m'
                /\ history m' = [of_Z 10; NaN].
Proof.
  destruct (parsed_value_is_appended Current 5 (fun _ => Ok "")
              (Monitor [of_Z 10] 1 []) "" "") as (_ & _ & Hnan & _ & Htick).
  split; [apply Hnan; reflexivity|].
  destruct Htick as (m' & Hm' & Hh); [lia | reflexivity | reflexivity |].
  exists m'. split; [exact Hm' | exact Hh].
Defined.

(** ** The chart *)

Section ChartFacts.
Context {N : Type}.
Variables (add sub mul div : N -> N -> N) (ceil : N -> N) (int : nat -> N).
Variable MAX : nat.
Variable pointHeight : N -> N -> N.

Lemma plot_imap height xStart pointSpacing i samples ctx :
  plot add sub mul int pointHeight height xStart pointSpacing i samples ctx
  = ctx ++ imap (fun j s =>
                   let '(x, y) := point add sub mul int pointHeight height xStart pointSpacing (i + j) s in
                   LineTo x y) samples.
Proof.
  revert i ctx. induction samples as [|s samples IH]; intros i ctx.
  - cbn. rewrite app_nil_r. reflexivity.
  - cbn [plot imap]. rewrite IH, <- app_assoc. cbn [app]. unfold point.
    rewrite Nat.add_0_r. do 2 f_equal.
    apply imap_ext. intros j x _. cbn. rewrite Nat.add_succ_r. reflexivity.
Qed.

Lemma vertices_imap_LineTo (f : nat -> N -> N * N) samples :
  vertices (imap (fun j s => let '(x, y) := f j s in LineTo x y) samples)
  = imap f samples.
Proof.
  revert f. induction samples as [|s samples IH]; intros f; [reflexivity|].
  cbn [imap]. unfold vertices in *. cbn [omap list_omap].
  destruct (f 0 s) as [x y] eqn:E. cbn [vertex]. f_equal.
  apply (IH (f ∘ S)).
Qed.

Lemma vertices_repaintHistory fg bg width height history :
  let pointSpacing := div width (sub (int MAX) (int 1)) in
  let xStart := mul (sub (int MAX) (int (length history))) pointSpacing in
  vertices (repaintHistory add sub mul div int MAX pointHeight
              fg bg width height history)
  = (xStart, height)
      :: imap (point add sub mul int pointHeight height xStart pointSpacing) history
      ++ [(add xStart (mul (sub (int (length history)) (int 1)) pointSpacing),
           height)].
Proof.
  cbv zeta. unfold repaintHistory. rewrite plot_imap.
  unfold vertices. rewrite !omap_app. cbn [omap list_omap vertex app].
  f_equal. f_equal. apply vertices_imap_LineTo.
Qed.
End ChartFacts.

(** C5.  For a chart of width [W] and height [H] and a history of any
    length [L], so also [L <= HISTORY_MAX_SIZE], the path that repaint
    draws starts at x = (MAX - L) * (W / (MAX - 1)); the point of the
    [i]-th sample is [i] times the spacing W / (MAX - 1) further right,
    at y = H - ceil(s * H) in the legacy variant, whose samples are
    fractions, and y = H - ceil(s * H / 100) in the current one, whose
    samples are percentages; the path ends on the bottom edge under the
    last sample.  Holds for any numbers with these operations. *)
Theorem chart_geometry {N : Type} (add sub mul div : N -> N -> N) (ceil : N -> N)
    (int : nat -> N) (MAX : nat) (fg bg : string) (W H : N) (history : list N) :
  let L := length history in
  let spacing := div W (sub (int MAX) (int 1)) in
  let xStart := mul (sub (int MAX) (int L)) spacing in
  let last := (add xStart (mul (sub (int L) (int 1)) spacing), H) in
  vertices (repaintHistory add sub mul div int MAX (GpuLegacy.pointHeight mul ceil)
              fg bg W H history)
  = (xStart, H)
      :: imap (fun i s => (add xStart (mul spacing (int i)), sub H (ceil (mul s H))))
           history
      ++ [last]
  /\ vertices (repaintHistory add sub mul div int MAX (Gpu.pointHeight mul div ceil int)
                 fg bg W H history)
     = (xStart, H)
         :: imap (fun i s => (add xStart (mul spacing (int i)),
                              sub H (ceil (div (mul s H) (int 100)))))
              history
         ++ [last].
Proof.
  cbv zeta. split; apply vertices_repaintHistory.
Qed.

(** In exact arithmetic a percentage times the height, over 100, is the
    fraction times the height: the two variants draw the same point for
    the same reading. *)
Lemma percent_is_fraction (s h : Q) :
  ndiv (nmul (Num s) (Num h)) (of_nat 100)
  = nmul (ndiv (Num s) (of_nat 100)) (Num h).
Proof.
  unfold ndiv, nmul, of_nat, of_Z, num.
  change (Qzero (inject_Z (Z.of_nat 100))) with false. cbv iota.
  f_equal. apply Qred_complete. rewrite !Qred_correct. field.
Qed.

Lemma Qzero_false q : ~ (q == 0)%Q -> Qzero q = false.
Proof.
  intros H. unfold Qzero. apply Z.eqb_neq. intros E. apply H.
  unfold Qeq. rewrite E. reflexivity.
Qed.

(** In exact arithmetic, with room for two samples or more and a chart
    of finite width [w], the point of the most recent sample lies on
    the right edge whatever the length of the history: a short history
    is right-aligned. *)
Lemma last_sample_at_right_edge (MAX L : nat) (w : Q) :
  2 <= MAX -> 1 <= L ->
  let spacing := ndiv (Num w) (nsub (of_nat MAX) (of_nat 1)) in
  let xStart := nmul (nsub (of_nat MAX) (of_nat L)) spacing in
  nadd xStart (nmul spacing (of_nat (L - 1))) = num w.
Proof.
  intros HMAX HL. cbv zeta.
  unfold nsub, nopp, nadd, of_nat, of_Z, num. cbv beta iota.
  set (d := Qred (inject_Z (Z.of_nat MAX) + Qred (- inject_Z (Z.of_nat 1)))).
  assert (Hd : (d == inject_Z (Z.of_nat MAX) - 1)%Q).
  { unfold d. rewrite !Qred_correct. reflexivity. }
  assert (Hd0 : ~ (d == 0)%Q).
  { rewrite Hd. intros E.
    assert (H1 : (inject_Z (Z.of_nat MAX) == 1)%Q).
    { rewrite <- (Qplus_0_l 1), <- E. ring. }
    unfold Qeq in H1. cbn in H1. lia. }
  unfold ndiv, nmul, nadd, num. rewrite (Qzero_false d Hd0).
  f_equal. apply Qred_complete. rewrite !Qred_correct, Hd.
  replace (Z.of_nat (L - 1)) with (Z.of_nat L - 1)%Z by lia.
  unfold Zminus. rewrite inject_Z_plus, inject_Z_opp.
  change (inject_Z 1) with 1%Q.
  field. rewrite <- Hd. exact Hd0.
Qed.

(** Three samples in a chart 100 wide and 50 high, with room for five. *)
Example chart_of_three_samples :
  vertices (Gpu._repaintHistory 5 "fg" "bg" (of_nat 100) (of_nat 50)
              (Monitor [of_nat 50; of_nat 100; of_nat 33] 1 []))
  = [(of_nat 50, of_nat 50); (of_nat 50, of_nat 25); (of_nat 75, of_nat 0);
     (of_nat 100, of_nat 33); (of_nat 100, of_nat 50)].
Proof. reflexivity. Qed.

(** ** shared.js *)

Section SharedFacts.
Import Shared.


(** The names the filter accepts: [card] and one decimal digit. *)
Lemma card_regex_test s :
  regex_test card_regex s = true
  <-> exists d, is_digit d = true /\ s = "card" +:+ String d "".
Proof.
  unfold regex_test, card_regex. split.
  - destruct s as [|c1 [|c2 [|c3 [|c4 [|c5 [|c6 s]]]]]];
      cbn [chars list_ascii_of_string match_anchored atom_matches];
      rewrite ?andb_false_r; try discriminate.
    rewrite !andb_true_iff, !Ascii.eqb_eq.
    intros (<- & <- & <- & <- & H & _).
    exists c5. split; [apply andb_true_iff; exact H | reflexivity].
  - intros (d & Hd & ->).
    change ("card" +:+ String d "")
      with (String "c" (String "a" (String "r" (String "d" (String d ""))))).
    cbn [chars list_ascii_of_string match_anchored atom_matches].
    rewrite !Ascii.eqb_refl. cbn [andb]. rewrite andb_true_r. exact Hd.
Qed.

Lemma isOK_AmdGpu fs path :
  isOK fs (new_AmdGpu path) = true
  <-> exists content, fs (path +:+ "/device/gpu_busy_percent") = Ok content.
Proof.
  unfold isOK, getUsage. cbn [class new_AmdGpu sysfsPath].
  destruct (fs _) as [c|e]; split; intros H; try reflexivity.
  - exists c. reflexivity.
  - discriminate.
  - destruct H as [c H]. discriminate.
Qed.

(** What the loop of [findGpuDevices] has collected at its end. *)
Lemma visit_all_lookup fs content path dev :
  fold_left (visit fs) content ∅ !! path = Some dev
  <-> exists entry, entry ∈ content
                    /\ regex_test card_regex entry = true
                    /\ path = basePath +:+ entry
                    /\ dev = new_AmdGpu path
                    /\ isOK fs dev = true.
Proof.
  induction content as [|e content IH] using rev_ind.
  - cbn. rewrite lookup_empty. split; [discriminate|].
    intros (entry & Hin & _). inversion Hin.
  - rewrite fold_left_app. cbn [fold_left]. unfold visit at 1.
    destruct (regex_test card_regex e) eqn:Hre;
      [destruct (isOK fs (new_AmdGpu (basePath +:+ e))) eqn:Hok|].
    + destruct (decide (basePath +:+ e = path)) as [<-|Hne].
      * rewrite lookup_insert_eq. split.
        -- intros [= <-]. exists e. rewrite elem_of_app, list_elem_of_singleton. auto.
        -- intros (entry & _ & _ & _ & -> & _). reflexivity.
      * rewrite lookup_insert_ne by assumption. rewrite IH. split.
        -- intros (entry & Hin & H). exists entry. rewrite elem_of_app. auto.
        -- intros (entry & Hin & Hr & Hp & H). exists entry.
           apply elem_of_app in Hin as [Hin|Hin%list_elem_of_singleton];
             [auto | subst; contradiction].
    + rewrite IH. split.
      * intros (entry & Hin & H). exists entry. rewrite elem_of_app. auto.
      * intros (entry & Hin & Hr & Hp & Hd & Hk). exists entry.
        apply elem_of_app in Hin as [Hin|Hin%list_elem_of_singleton]; [auto|].
        subst. congruence.
    + rewrite IH. split.
      * intros (entry & Hin & H). exists entry. rewrite elem_of_app. auto.
      * intros (entry & Hin & Hr & H). exists entry.
        apply elem_of_app in Hin as [Hin|Hin%list_elem_of_singleton]; [auto|].
        subst. congruence.
Qed.

(** Once the promise is settled, a [Device:] line has been seen; until
    then the name is the one the scan started with. *)
Lemma scan_lines_resolved ls n v :
  snd (scan_lines ls n (Resolved v)) = Resolved v.
Proof.
  revert n. induction ls as [|line ls IH]; intros n; cbn; [reflexivity|].
  destruct (String.eqb _ _); apply IH.
Qed.

Lemma scan_lines_unresolved ls n :
  (forall v, snd (scan_lines ls n Pending) <> Resolved v) ->
  fst (scan_lines ls n Pending) = n.
Proof.
  induction ls as [|line ls IH]; cbn; [reflexivity|].
  destruct (String.eqb _ _); [|exact IH].
  intros H. exfalso. eapply H, scan_lines_resolved.
Qed.
End SharedFacts.

(** A lookup that finds the [Device:] line of the child's output. *)
Example lookupName_resolves :
  Shared.lookupName (fun _ => Ok "0x1002")
    (fun _ => Shared.Exits true
                (String.concat (String "010" "") ["Vendor: AMD"; "Device: Navi 10"; ""]))
    (Shared.new_AmdGpu "/sys/class/drm/card0")
  = (Shared.Device Shared.AmdGpuClass "/sys/class/drm/card0" (Some "Navi 10"),
     Some (Shared.Resolved "Navi 10")).
Proof. reflexivity. Qed.

(** The name [card10] is [card] followed by digits only, yet it fails
    the filter: it is no candidate, and discovery leaves it out even
    when its usage file is readable. *)
Lemma card10_is_digits_only_but_no_candidate :
  cardN_digits_only "card10" = true
  /\ Shared.regex_test Shared.card_regex "card10" = false
  /\ ("card10" ∉ Shared.candidates ["card0"; "card10"; "renderD128"])
  /\ Shared.findGpuDevices (Ok ["card10"]) (fun _ => Ok "5") = Shared.Resolved ∅.
Proof.
  split; [reflexivity|]. split; [reflexivity|]. split; [|reflexivity].
  unfold Shared.candidates. rewrite list_elem_of_filter. intros [H _]. discriminate H.
Qed.

(** C7, as the code has it.  Discovery looks at the entries of the
    listing of [/sys/class/drm/]; the candidates are exactly the entries
    named [card] followed by exactly one decimal digit; the collection
    it resolves with holds, under its path, a fresh [AmdGpu] for
    exactly each candidate whose usage file [gpu_busy_percent] is read
    without an exception, which is when the probe [isOK] succeeds.  Of
    [card0], [card1] and [renderD128] the candidates are [card0] and
    [card1]. *)
Theorem discovery_keeps_probed_cards (content : list string) (fs : filesystem) :
  (forall entry,
      entry ∈ Shared.candidates content
      <-> entry ∈ content
          /\ exists d, is_digit d = true /\ entry = "card" +:+ String d "")
  /\ (exists collection,
        Shared.findGpuDevices (Ok content) fs = Shared.Resolved collection
        /\ forall path dev,
            collection !! path = Some dev
            <-> dev = Shared.new_AmdGpu path
                /\ (exists entry,
                      entry ∈ Shared.candidates content
                      /\ path = Shared.basePath +:+ entry)
                /\ exists usage, fs (path +:+ "/device/gpu_busy_percent") = Ok usage)
  /\ (forall path,
        Shared.isOK fs (Shared.new_AmdGpu path) = true
        <-> exists usage, fs (path +:+ "/device/gpu_busy_percent") = Ok usage)
  /\ Shared.candidates ["card0"; "card1"; "renderD128"] = ["card0"; "card1"].
Proof.
  assert (Hcand : forall entry,
             entry ∈ Shared.candidates content
             <-> entry ∈ content /\ Shared.regex_test Shared.card_regex entry = true).
  { intros entry. unfold Shared.candidates. rewrite list_elem_of_filter. tauto. }
  split; [|split; [|split]].
  - intros entry. rewrite Hcand, card_regex_test. reflexivity.
  - eexists. split; [reflexivity|]. intros path dev.
    rewrite visit_all_lookup. split.
    + intros (entry & Hin & Hre & -> & -> & Hok).
      split; [reflexivity|]. split.
      * exists entry. rewrite Hcand. auto.
      * apply isOK_AmdGpu. exact Hok.
    + intros (-> & (entry & Hin & ->) & Hread). exists entry.
      apply Hcand in Hin as [Hin Hre].
      repeat split; try assumption. apply isOK_AmdGpu. exact Hread.
  - intros path. apply isOK_AmdGpu.
  - reflexivity.
Qed.

(** Two cards of which one has no readable usage file. *)
Example discovery_drops_unreadable_card :
  Shared.findGpuDevices (Ok ["card0"; "card1"; "renderD128"])
    (fun path =>
       if String.eqb path "/sys/class/drm/card0/device/gpu_busy_percent"
       then Ok "5" else Throw "ENOENT")
  = Shared.Resolved
      {[ "/sys/class/drm/card0" := Shared.new_AmdGpu "/sys/class/drm/card0" ]}.
Proof. vm_compute. reflexivity. Qed.

(** C9.  A name made of [card] and two or more digits, such as
    [card10], fails the name filter: it is no candidate, and its path is
    never a key of the collection that discovery resolves with. *)
Theorem multi_digit_card_is_no_candidate (digits : string)
    (content : list string) (fs : filesystem) :
  2 <= String.length digits ->
  Forall (fun c => is_digit c = true) (chars digits) ->
  Shared.regex_test Shared.card_regex ("card" +:+ digits) = false
  /\ (("card" +:+ digits) ∉ Shared.candidates content)
  /\ forall collection,
      Shared.findGpuDevices (Ok content) fs = Shared.Resolved collection ->
      collection !! (Shared.basePath +:+ "card" +:+ digits) = None.
Proof.
  intros Hlen _.
  assert (Hre : Shared.regex_test Shared.card_regex ("card" +:+ digits) = false).
  { destruct (Shared.regex_test _ _) eqn:E; [|reflexivity].
    apply card_regex_test in E as (d & _ & E).
    apply (inj (String.app "card")) in E. subst digits. cbn in Hlen. lia. }
  split; [exact Hre|]. split.
  - unfold Shared.candidates. rewrite list_elem_of_filter. intros [H _]. congruence.
  - intros collection [= <-].
    destruct (fold_left _ _ _ !! _) as [dev|] eqn:E; [|reflexivity].
    apply visit_all_lookup in E as (entry & _ & Hentry & Hpath & _).
    apply (inj (String.app Shared.basePath)) in Hpath. congruence.
Qed.

Lemma multi_digit_card_is_no_candidate_witness :
  Shared.regex_test Shared.card_regex "card10" = false
  /\ ("card10" ∉ Shared.candidates ["card0"; "card10"])
  /\ forall collection,
      Shared.findGpuDevices (Ok ["card0"; "card10"]) (fun _ => Ok "5")
      = Shared.Resolved collection ->
      collection !! "/sys/class/drm/card10" = None.
Proof.
  apply (multi_digit_card_is_no_candidate "10" ["card0"; "card10"] (fun _ => Ok "5")).
  - cbn. lia.
  - repeat constructor.
Defined.

(** C8.  A device whose name is unset answers [getName] with its path.
    A name lookup that does not resolve (a read or the child process
    fails, the child exits unsuccessfully, or its output has no
    [Device:] line) raises nothing, leaves the name unset, and [getName]
    keeps answering with the path. *)
Theorem unresolved_name_falls_back_to_path (d : Shared.GpuDevice) :
  Shared.name d = None ->
  Shared.getName d = Shared.sysfsPath d
  /\ forall fs spawn d' p,
      Shared.lookupName fs spawn d = (d', p) ->
      (forall v, p <> Some (Shared.Resolved v)) ->
      Shared.name d' = None
      /\ Shared.sysfsPath d' = Shared.sysfsPath d
      /\ Shared.getName d' = Shared.sysfsPath d.
Proof.
  intros Hname.
  assert (Hget : forall d0, Shared.name d0 = None ->
                            Shared.getName d0 = Shared.sysfsPath d0).
  { intros d0 H. unfold Shared.getName. rewrite H. reflexivity. }
  split; [apply Hget, Hname|].
  intros fs spawn d' p Hlook Hp.
  assert (Hd' : Shared.name d' = None /\ Shared.sysfsPath d' = Shared.sysfsPath d).
  { unfold Shared.lookupName in Hlook.
    destruct (Shared.class d);
      [injection Hlook as <- <-; auto|].
    destruct (fs _); [|injection Hlook as <- <-; auto].
    destruct (fs _); [|injection Hlook as <- <-; auto].
    destruct (spawn _) as [e|err|[] stdout]; try (injection Hlook as <- <-; auto).
    destruct (Shared.scan_lines _ _ _) as [n q] eqn:E.
    injection Hlook as <- <-. cbn [Shared.with_name Shared.name Shared.sysfsPath].
    split; [|reflexivity].
    rewrite <- Hname.
    change n with (fst (n, q)). rewrite <- E. apply scan_lines_unresolved.
    rewrite E. cbn [snd]. intros v ->. apply (Hp v). reflexivity. }
  destruct Hd' as [Hn Hs]. repeat split; try assumption.
  rewrite <- Hs. apply Hget, Hn.
Qed.

Lemma unresolved_name_falls_back_to_path_witness :
  Shared.getName (Shared.new_AmdGpu "/sys/class/drm/card0") = "/sys/class/drm/card0"
  /\ Shared.getName
       (fst (Shared.lookupName (fun _ => Ok "0x1002")
               (fun _ => Shared.Exits false "")
               (Shared.new_AmdGpu "/sys/class/drm/card0")))
     = "/sys/class/drm/card0".
Proof.
  destruct (unresolved_name_falls_back_to_path
              (Shared.new_AmdGpu "/sys/class/drm/card0")) as [Hget Hlook];
    [reflexivity|].
  split; [exact Hget|].
  apply (Hlook (fun _ => Ok "0x1002") (fun _ => Shared.Exits false "")
           (Shared.new_AmdGpu "/sys/class/drm/card0")
           (Some (Shared.Rejected "proc was not successful")));
    [reflexivity | discriminate].
Defined.

(** C10.  With the unit [bytes], a count strictly between 0 and 1 is
    reported as [0 KB] and a count from 1 up to, not including, 1000 as
    [< 1 KB], with or without the imprecise flag: no exact count is
    shown below one kilobyte. *)
Theorem small_byte_counts (q : Q) (imprecise : bool) :
  ((0 < q /\ q < 1)%Q ->
   Shared.bytesToHumanString (Num q) "bytes" imprecise = Shared.Str (Shared.Lit "0 KB"))
  /\ ((1 <= q /\ q < 1000)%Q ->
      Shared.bytesToHumanString (Num q) "bytes" imprecise
      = Shared.Str (Shared.Lit "< 1 KB")).
Proof.
  assert (Hlt : forall z : Z, (q < inject_Z z)%Q -> nlt (Num q) (of_Z z) = true).
  { intros z H. cbn. destruct (Qle_bool (inject_Z z) q) eqn:E; [|reflexivity].
    apply Qle_bool_iff in E. exfalso. exact (Qlt_not_le _ _ H E). }
  assert (Hge : forall z : Z, (inject_Z z <= q)%Q -> nlt (Num q) (of_Z z) = false).
  { intros z H. cbn. apply Qle_bool_iff in H. rewrite H. reflexivity. }
  unfold Shared.bytesToHumanString. cbn [isNaN].
  change (String.eqb "bytes" "bits") with false. cbv iota.
  split.
  - intros [_ H1]. rewrite (Hlt 1%Z H1). reflexivity.
  - intros [H1 H1000]. rewrite (Hge 1%Z H1), (Hlt 1000%Z H1000). reflexivity.
Qed.

Lemma small_byte_counts_witness :
  Shared.bytesToHumanString (Num (1 # 2)) "bytes" false = Shared.Str (Shared.Lit "0 KB")
  /\ Shared.bytesToHumanString (Num 999) "bytes" false
     = Shared.Str (Shared.Lit "< 1 KB").
Proof.
  split.
  - apply (small_byte_counts (1 # 2) false). split; reflexivity.
  - apply (small_byte_counts 999 false). split; [discriminate | reflexivity].
Defined.

(** * Further properties *)

(** ** Ticks that fail among ticks that succeed *)

Lemma tick_keeps_handle r MAX fs m m' :
  final (refreshCharts r MAX fs m) = Some m' -> refreshTimer m' = refreshTimer m.
Proof.
  destruct (sample r fs) as [x|] eqn:Hs.
  - destruct MAX as [|MAX].
    + rewrite (tick_diverges_at_zero r fs m x Hs). discriminate.
    + destruct (tick_sample r (S MAX) fs m x ltac:(lia) Hs) as [u ->].
      intros [= <-]. reflexivity.
  - destruct (tick_aborts r MAX fs m Hs) as (m1 & H & _ & Ht).
    destruct r; [destruct H as [e ->] | rewrite H]; intros [= <-]; exact Ht.
Qed.

Lemma tick_keeps_bound r MAX fs m m' :
  final (refreshCharts r MAX fs m) = Some m' ->
  length (history m) <= MAX -> length (history m') <= MAX.
Proof.
  destruct (sample r fs) as [x|] eqn:Hs.
  - destruct MAX as [|MAX].
    + rewrite (tick_diverges_at_zero r fs m x Hs). discriminate.
    + destruct (tick_sample r (S MAX) fs m x ltac:(lia) Hs) as [u ->].
      intros [= <-] _. cbn [with_history history]. rewrite length_lastn. lia.
  - destruct (tick_aborts r MAX fs m Hs) as (m1 & H & Hh & _).
    destruct r; [destruct H as [e ->] | rewrite H]; intros [= <-]; rewrite Hh; auto.
Qed.

(** X1.  Over any sequence of ticks, failed ones included, the history
    ends as the last [HISTORY_MAX_SIZE] of what it held followed by the
    samples of the ticks that succeeded, in order: a failed tick leaves
    no entry and no gap marker. *)
Theorem failed_ticks_are_skipped (r : variant) (MAX : nat) (fss : list filesystem)
    (m : monitor) :
  1 <= MAX -> length (history m) <= MAX ->
  exists m', run (refreshCharts r MAX) fss m = Some m'
             /\ history m' = lastn MAX (history m ++ omap (sample r) fss)
             /\ refreshTimer m' = refreshTimer m.
Proof.
  intros HMAX. revert m. induction fss as [|fs fss IH]; intros m Hlen.
  - exists m. cbn. rewrite app_nil_r, lastn_all by assumption. auto.
  - cbn [run omap list_omap]. destruct (sample r fs) as [x|] eqn:Hs.
    + destruct (tick_sample r MAX fs m x HMAX Hs) as [u ->]. cbn [final].
      destruct (IH (with_history m (lastn MAX (history m ++ [x])) u))
        as (m' & Hrun & Hh & Ht).
      { cbn. rewrite length_lastn. lia. }
      exists m'. split; [exact Hrun|]. split; [|exact Ht].
      rewrite Hh. cbn [with_history history].
      rewrite lastn_lastn_app, <- app_assoc. reflexivity.
    + destruct (tick_aborts r MAX fs m Hs) as (m1 & H & Hh & Ht).
      assert (Hf : final (refreshCharts r MAX fs m) = Some m1).
      { destruct r; [destruct H as [e ->] | rewrite H]; reflexivity. }
      rewrite Hf. destruct (IH m1) as (m' & Hrun & Hh' & Ht'); [rewrite Hh; exact Hlen|].
      exists m'. split; [exact Hrun|]. rewrite Hh', Hh, Ht', Ht. auto.
Qed.

Lemma failed_ticks_are_skipped_witness :
  exists m', run (refreshCharts Legacy 2)
               [fun _ => Ok "10"; fun _ => Throw "EIO"; fun _ => Ok "30"; fun _ => Ok "50"]
               (Monitor [] 1 []) = Some m'
             /\ history m' = [num (30 # 100); num (50 # 100)].
Proof.
  destruct (failed_ticks_are_skipped Legacy 2
              [fun _ => Ok "10"; fun _ => Throw "EIO"; fun _ => Ok "30"; fun _ => Ok "50"]
              (Monitor [] 1 [])) as (m' & Hrun & Hh & _); [lia | cbn; lia |].
  exists m'. split; [exact Hrun | exact Hh].
Defined.

(** X2.  A tick one of whose reads throws calls no widget and queues no
    repaint, so what is displayed stays as it was: [lib/gpu.js] leaves
    the monitor untouched and lets the exception of the first failing
    read escape; the legacy variant logs that exception, once, and
    returns [undefined].  This does not depend on the bound. *)
Theorem failed_tick_touches_no_widget (r : variant) (MAX : nat) (fs : filesystem)
    (m : monitor) :
  sample r fs = None ->
  exists e,
    (fs (gpu_busy_percent r) = Throw e
     \/ (exists content, fs (gpu_busy_percent r) = Ok content)
        /\ fs (mem_busy_percent r) = Throw e)
    /\ refreshCharts r MAX fs m
       = match r with
         | Current => Throws e m
         | Legacy =>
             Returns RetUndefined
               {| history := history m; refreshTimer := refreshTimer m;
                  ui := ui m ++ [LogError e] |}
         end.
Proof.
  unfold sample. intros Hs.
  destruct (fs (gpu_busy_percent r)) as [c1|e1] eqn:H1.
  - destruct (fs (mem_busy_percent r)) as [c2|e2] eqn:H2; [discriminate|].
    exists e2. split; [right; eauto|].
    destruct r; cbn [refreshCharts gpu_busy_percent mem_busy_percent] in *;
      unfold Gpu._refreshCharts, GpuLegacy._refreshCharts; rewrite H1, H2; reflexivity.
  - exists e1. split; [left; reflexivity|].
    destruct r; cbn [refreshCharts gpu_busy_percent mem_busy_percent] in *;
      unfold Gpu._refreshCharts, GpuLegacy._refreshCharts; rewrite H1; reflexivity.
Qed.

Lemma failed_tick_touches_no_widget_witness :
  refreshCharts Current 5 (fun _ => Throw "ENOENT") (Monitor [of_Z 10] 1 [QueueRepaint])
  = Throws "ENOENT" (Monitor [of_Z 10] 1 [QueueRepaint]).
Proof.
  destruct (failed_tick_touches_no_widget Current 5 (fun _ => Throw "ENOENT")
              (Monitor [of_Z 10] 1 [QueueRepaint])) as (e & [He|[_ He]] & Htick);
    [reflexivity | | ]; injection He as <-; exact Htick.
Defined.

(** ** Well-formed readings *)

Ltac each_digit d H :=
  let E := fresh in
  assert (E : d = 0 \/ d = 1 \/ d = 2 \/ d = 3 \/ d = 4 \/ d = 5 \/ d = 6
              \/ d = 7 \/ d = 8 \/ d = 9) by lia;
  clear H; repeat (destruct E as [E|E]; [subst d|]); [.. | subst d].

Lemma digit_value_char d : d < 10 -> digit_value 10 (digit_char d) = Some d.
Proof. intros H. each_digit d H; reflexivity. Qed.

Lemma digit_char_not_white d : d < 10 -> is_white_space (digit_char d) = false.
Proof. intros H. each_digit d H; reflexivity. Qed.

Lemma strip_sign_digit d cs :
  d < 10 -> strip_sign (digit_char d :: cs) = (false, digit_char d :: cs).
Proof. intros H. each_digit d H; reflexivity. Qed.

Lemma digit_char_not_x d : d < 10 -> digit_char d <> "x"%char /\ digit_char d <> "X"%char.
Proof. intros H. each_digit d H; split; discriminate. Qed.

Lemma strip_hex_prefix_digit d cs :
  d < 10 ->
  match cs with
  | c :: _ => c <> "x"%char /\ c <> "X"%char
  | [] => True
  end ->
  strip_hex_prefix (digit_char d :: cs) = None.
Proof.
  intros H Hcs. each_digit d H; try reflexivity.
  destruct cs as [|c cs]; [reflexivity|]. destruct Hcs as [Hx HX].
  destruct c as [[] [] [] [] [] [] [] []]; try reflexivity; contradiction.
Qed.

Lemma span_digits_chars ds rest :
  Forall (fun d => d < 10) ds ->
  span_digits 10 rest = ([], rest) ->
  span_digits 10 (map digit_char ds ++ rest) = (ds, rest).
Proof.
  intros Hds Hrest. induction Hds as [|d ds Hd _ IH]; [exact Hrest|].
  cbn [map app span_digits]. rewrite (digit_value_char d Hd), IH. reflexivity.
Qed.

(** What follows the first digit of a reading is no [x]. *)
Lemma reading_tail_not_x ds rest :
  Forall (fun d => d < 10) ds ->
  match rest with c :: _ => c <> "x"%char /\ c <> "X"%char | [] => True end ->
  match map digit_char ds ++ rest with
  | c :: _ => c <> "x"%char /\ c <> "X"%char
  | [] => True
  end.
Proof.
  intros Hds Hrest. destruct Hds as [|d ds Hd _]; [exact Hrest|].
  cbn [map app]. apply digit_char_not_x, Hd.
Qed.

Lemma parseInt_digits ds rest :
  ds <> [] -> Forall (fun d => d < 10) ds ->
  span_digits 10 rest = ([], rest) ->
  match rest with c :: _ => c <> "x"%char /\ c <> "X"%char | [] => True end ->
  parseInt (string_of_list_ascii (map digit_char ds ++ rest))
  = of_Z (digits_value 10 ds).
Proof.
  intros Hne Hds Hrest Hx. unfold parseInt, chars.
  rewrite list_ascii_of_string_of_list_ascii.
  destruct Hds as [|d ds Hd Hds]; [contradiction|].
  cbn [map app skip_white]. rewrite (digit_char_not_white d Hd).
  rewrite (strip_sign_digit d _ Hd).
  rewrite (strip_hex_prefix_digit d _ Hd) by (apply reading_tail_not_x; assumption).
  change (digit_char d :: map digit_char ds ++ rest)
    with (map digit_char (d :: ds) ++ rest).
  rewrite span_digits_chars by (try constructor; assumption).
  reflexivity.
Qed.

Lemma skip_white_digits ds rest :
  ds <> [] -> Forall (fun d => d < 10) ds ->
  skip_white (map digit_char ds ++ rest) = map digit_char ds ++ rest.
Proof.
  intros Hne Hds. destruct Hds as [|d ds Hd _]; [contradiction|].
  cbn [map app skip_white]. rewrite (digit_char_not_white d Hd). reflexivity.
Qed.

Lemma trim_chars_reading ds :
  ds <> [] -> Forall (fun d => d < 10) ds ->
  trim_chars (map digit_char ds ++ ["010"%char]) = map digit_char ds.
Proof.
  intros Hne Hds. unfold trim_chars.
  rewrite skip_white_digits by assumption.
  rewrite rev_app_distr. cbn [rev app skip_white].
  change (is_white_space "010") with true. cbv iota.
  rewrite <- map_rev, <- (app_nil_r (map digit_char (rev ds))).
  rewrite skip_white_digits.
  - rewrite app_nil_r, map_rev, rev_involutive. reflexivity.
  - intros E. apply (f_equal (@rev nat)) in E. rewrite rev_involutive in E.
    apply Hne. exact E.
  - apply Forall_rev. exact Hds.
Qed.

Lemma trim_chars_digits ds :
  ds <> [] -> Forall (fun d => d < 10) ds ->
  trim_chars (map digit_char ds) = map digit_char ds.
Proof.
  intros Hne Hds. unfold trim_chars.
  rewrite <- (app_nil_r (map digit_char ds)), skip_white_digits by assumption.
  rewrite app_nil_r, <- map_rev, <- (app_nil_r (map digit_char (rev ds))).
  rewrite skip_white_digits.
  - rewrite app_nil_r, map_rev, rev_involutive. reflexivity.
  - intros E. apply (f_equal (@rev nat)) in E. rewrite rev_involutive in E.
    apply Hne. exact E.
  - apply Forall_rev. exact Hds.
Qed.

Lemma Qred_inject_Z z : Qred (inject_Z z) = inject_Z z.
Proof.
  unfold Qred, inject_Z.
  pose proof (Z.ggcd_gcd z 1) as Hg.
  pose proof (Z.ggcd_correct_divisors z 1) as Hd.
  destruct (Z.ggcd z 1) as [g [a b]]. cbn [fst snd] in *.
  rewrite Z.gcd_1_r in Hg. subst g. destruct Hd as [Ha Hb].
  rewrite Z.mul_1_l in Ha, Hb. subst a b. reflexivity.
Qed.

Lemma non_decimal_literal_digits ds :
  Forall (fun d => d < 10) ds -> non_decimal_literal (map digit_char ds) = None.
Proof.
  intros Hds. destruct Hds as [|d ds Hd Hds]; [reflexivity|].
  destruct Hds as [|d' ds Hd' _].
  - each_digit d Hd; reflexivity.
  - each_digit d Hd; try reflexivity. each_digit d' Hd'; reflexivity.
Qed.

Lemma ToNumber_digits ds :
  ds <> [] -> Forall (fun d => d < 10) ds ->
  ToNumber (string_of_list_ascii (map digit_char ds)) = of_Z (digits_value 10 ds).
Proof.
  intros Hne Hds. unfold ToNumber, chars.
  rewrite list_ascii_of_string_of_list_ascii, trim_chars_digits by assumption.
  pose proof (non_decimal_literal_digits ds Hds) as Hnd.
  destruct ds as [|d ds]; [contradiction|]. clear Hne.
  pose proof (Forall_inv Hds) as Hd.
  cbn [map] in *. rewrite Hnd, (strip_sign_digit d _ Hd).
  unfold unsigned_decimal_literal.
  assert (Hinf : String.eqb (string_of_list_ascii (digit_char d :: map digit_char ds))
                   "Infinity" = false).
  { clear Hds. each_digit d Hd; reflexivity. }
  rewrite Hinf.
  change (digit_char d :: map digit_char ds) with (map digit_char (d :: ds)).
  rewrite <- (app_nil_r (map digit_char (d :: ds))).
  rewrite span_digits_chars by (assumption || reflexivity).
  cbn [app exponent_part length]. rewrite app_nil_r.
  unfold num, of_Z. f_equal.
  rewrite <- (Qred_inject_Z (digits_value 10 (d :: ds))) at 2.
  apply Qred_complete.
  change (inject_Z 10 ^ (0 - Z.of_nat 0))%Q with 1%Q. apply Qmult_1_r.
Qed.

(** X3.  A reading written as decimal digits and a line feed, as the
    kernel writes it, whose value is at most 2^53 and so is a value of
    a JavaScript number, parses to exactly the number its digits
    denote: this is the sample of [lib/gpu.js], and it is the number
    that the legacy variant, after [trim], divides by 100.  Leading
    zeros are allowed. *)
Theorem reading_round_trip (ds : list nat) :
  ds <> [] -> Forall (fun d => d < 10) ds ->
  (digits_value 10 ds <= 2 ^ 53)%Z ->
  parsed Current (reading ds) = of_Z (digits_value 10 ds)
  /\ ToNumber (trim (reading ds)) = of_Z (digits_value 10 ds).
Proof.
  intros Hne Hds _. unfold parsed, reading. split.
  - apply parseInt_digits; try assumption; [reflexivity | split; discriminate].
  - unfold trim, chars.
    rewrite list_ascii_of_string_of_list_ascii, trim_chars_reading by assumption.
    apply ToNumber_digits; assumption.
Qed.

Lemma reading_round_trip_witness :
  parsed Current (reading [1; 0; 0]) = of_Z 100
  /\ ToNumber (trim (reading [0; 7])) = of_Z 7.
Proof.
  split.
  - apply (reading_round_trip [1; 0; 0]);
      [discriminate | repeat constructor | vm_compute; discriminate].
  - apply (reading_round_trip [0; 7]);
      [discriminate | repeat constructor | vm_compute; discriminate].
Defined.

(** ** The life of a monitor *)

(** X4.  stop leaves the handle at zero and the history as it is; it
    removes the source of the handle it held and touches no other
    source; a second stop in a row changes nothing. *)
Theorem stop_cancels_the_timer (m : monitor) (g : glib) :
  let '(m', g') := _stopTimers (m, g) in
  refreshTimer m' = 0
  /\ history m' = history m
  /\ (refreshTimer m <> 0 -> refreshTimer m ∉ sources g')
  /\ (forall id, id <> refreshTimer m -> id ∈ sources g' <-> id ∈ sources g)
  /\ _stopTimers (m', g') = (m', g').
Proof.
  unfold _stopTimers. destruct (Nat.eqb_spec (refreshTimer m) 0) as [E|E]; cbn.
  - split; [exact E|]. split; [reflexivity|]. split; [contradiction|].
    split; [tauto|]. rewrite E. reflexivity.
  - split; [reflexivity|]. split; [reflexivity|]. split; [|split; [|reflexivity]].
    + intros _ [_ Hn]%elem_of_difference. apply Hn, elem_of_singleton. reflexivity.
    + intros id Hne. rewrite elem_of_difference, elem_of_singleton. tauto.
Qed.

Lemma fresh_ids_add g :
  fresh_ids g -> fresh_ids (snd (timeout_add g)).
Proof.
  intros Hf id. cbn. intros [->%elem_of_singleton|H]%elem_of_union; [lia|].
  apply Hf in H. lia.
Qed.

Lemma fresh_ids_remove id g : fresh_ids g -> fresh_ids (source_remove id g).
Proof.
  intros Hf id'. cbn. intros [H _]%elem_of_difference. apply Hf, H.
Qed.

Lemma owns_start g0 mg :
  owns_at_most_its_handle g0 mg -> owns_at_most_its_handle g0 (_startTimers mg).
Proof.
  destruct mg as [m g]. unfold _startTimers, owns_at_most_its_handle. cbn.
  intros (Hf & Hl & Hh & Hsub & Hown).
  destruct (Nat.eqb_spec (refreshTimer m) 0) as [E|E]; cbn.
  - split; [apply (fresh_ids_add g Hf)|]. split; [lia|]. split; [right; lia|]. split.
    + intros id H. apply elem_of_union. right. auto.
    + intros id [->%elem_of_singleton|H]%elem_of_union; [auto|].
      destruct (Hown id H) as [H0| ->]; [auto|].
      apply Hf in H. lia.
  - auto.
Qed.

Lemma owns_init g0 : fresh_ids g0 -> owns_at_most_its_handle g0 (_init g0).
Proof.
  intros Hf. apply (owns_start g0 (Monitor [] 0 [], g0)).
  unfold owns_at_most_its_handle. cbn.
  split; [exact Hf|]. split; [lia|]. split; [left; reflexivity|]. auto.
Qed.

Lemma owns_stop g0 mg :
  fresh_ids g0 ->
  owns_at_most_its_handle g0 mg -> owns_at_most_its_handle g0 (_stopTimers mg).
Proof.
  destruct mg as [m g]. unfold _stopTimers, owns_at_most_its_handle.
  intros Hf0 (Hf & Hl & Hh & Hsub & Hown).
  destruct (Nat.eqb_spec (refreshTimer m) 0) as [E|E]; cbn.
  - auto.
  - split; [apply (fresh_ids_remove _ g Hf)|]. split; [exact Hl|].
    split; [left; reflexivity|]. split.
    + intros id H. apply elem_of_difference. split; [auto|].
      intros ->%elem_of_singleton. apply Hf0 in H. lia.
    + intros id [H Hne]%elem_of_difference.
      destruct (Hown id H) as [H0| ->]; [auto|].
      exfalso. apply Hne, elem_of_singleton. reflexivity.
Qed.

Lemma owns_tick g0 m g m' :
  refreshTimer m' = refreshTimer m ->
  owns_at_most_its_handle g0 (m, g) -> owns_at_most_its_handle g0 (m', g).
Proof. unfold owns_at_most_its_handle. intros ->. auto. Qed.

Lemma owns_removed g0 m g m' :
  fresh_ids g0 ->
  refreshTimer m' = refreshTimer m ->
  owns_at_most_its_handle g0 (m, g) ->
  owns_at_most_its_handle g0 (m', source_remove (refreshTimer m) g).
Proof.
  unfold owns_at_most_its_handle. intros Hf0 -> (Hf & Hl & Hh & Hsub & Hown).
  split; [apply (fresh_ids_remove _ g Hf)|]. split; [exact Hl|].
  split; [exact Hh|]. cbn. split.
  - intros id H. apply elem_of_difference. split; [auto|].
    intros ->%elem_of_singleton. apply Hf0 in H. lia.
  - intros id [H _]%elem_of_difference. auto.
Qed.

Lemma owns_step g0 r MAX e mg mg' :
  fresh_ids g0 ->
  step r MAX e mg = Some mg' ->
  owns_at_most_its_handle g0 mg -> owns_at_most_its_handle g0 mg'.
Proof.
  intros Hf0 Hstep Hinv. destruct mg as [m g].
  destruct e as [[]|fs|fs|]; unfold step, notify_visible, destroy in Hstep;
    cbn [fst snd] in Hstep.
  - injection Hstep as <-. apply (owns_start g0 (m, g)), Hinv.
  - injection Hstep as <-. apply (owns_stop g0 (m, g)); assumption.
  - unfold dispatch in Hstep. destruct (decide _); [|injection Hstep as <-; exact Hinv].
    destruct (refreshCharts r MAX fs m) as [[] m1|e1 m1|] eqn:Ht; try discriminate;
      injection Hstep as <-;
      assert (Hh : refreshTimer m1 = refreshTimer m)
        by (apply (tick_keeps_handle r MAX fs); rewrite Ht; reflexivity);
      [eapply owns_tick | apply owns_removed | apply owns_removed]; eassumption.
  - destruct (final _) as [m1|] eqn:Ht; [|discriminate]. injection Hstep as <-.
    eapply owns_tick; [|exact Hinv]. eapply tick_keeps_handle, Ht.
  - injection Hstep as <-. apply (owns_stop g0 (m, g)); assumption.
Qed.

Lemma owns_steps g0 r MAX es mg mg' :
  fresh_ids g0 ->
  steps r MAX es mg = Some mg' ->
  owns_at_most_its_handle g0 mg -> owns_at_most_its_handle g0 mg'.
Proof.
  intros Hf0. revert mg. induction es as [|e es IH]; intros mg; cbn [steps].
  - intros [= <-]. auto.
  - destruct (step r MAX e mg) as [mg1|] eqn:Hs; [|discriminate].
    intros Hsteps Hinv. apply (IH mg1 Hsteps). eapply owns_step; eassumption.
Qed.

(** X5.  Whatever happens to a monitor after its construction (shown,
    hidden, ticks that succeed or fail, refresh, destroy), it holds at
    most one timeout source, the one of its handle, and it neither
    removes nor adds any other source. *)
Theorem at_most_one_timer (r : variant) (MAX : nat) (es : list event)
    (g0 : glib) (m : monitor) (g : glib) :
  fresh_ids g0 ->
  steps r MAX es (_init g0) = Some (m, g) ->
  (forall id, id ∈ sources g0 -> id ∈ sources g)
  /\ (forall id, id ∈ sources g -> id ∉ sources g0 -> id = refreshTimer m)
  /\ refreshTimer m ∉ sources g0.
Proof.
  intros Hf0 Hsteps.
  pose proof (owns_steps g0 r MAX es _ _ Hf0 Hsteps (owns_init g0 Hf0))
    as (Hf & Hl & Hh & Hsub & Hown).
  split; [exact Hsub|]. split.
  - intros id Hin Hnot. destruct (Hown id Hin); [contradiction | assumption].
  - intros Hin. apply Hf0 in Hin. lia.
Qed.

Lemma at_most_one_timer_witness :
  1 ∈ sources (GLib {[1; 3]} 3) /\ (3 ∉ sources (GLib {[1]} 1)).
Proof.
  destruct (at_most_one_timer Current 5 [Visible false; Visible true]
              (GLib {[1]} 1) (Monitor [] 3 []) (GLib {[1; 3]} 3)) as (Hkeep & _ & Hnew).
  - intros id Hin. cbn in Hin. apply elem_of_singleton in Hin. subst id. cbn. lia.
  - vm_compute. reflexivity.
  - split; [apply Hkeep; cbn; apply elem_of_singleton; reflexivity | exact Hnew].
Defined.

Lemma step_keeps_bound r MAX e mg :
  1 <= MAX -> length (history (fst mg)) <= MAX ->
  exists mg', step r MAX e mg = Some mg' /\ length (history (fst mg')) <= MAX.
Proof.
  intros HMAX Hlen. destruct mg as [m g]. cbn [fst] in Hlen.
  destruct e as [[]|fs|fs|]; unfold step, notify_visible, destroy; cbn [fst snd].
  - eexists. split; [reflexivity|]. unfold _startTimers. cbn.
    destruct (refreshTimer m =? 0); cbn; lia.
  - eexists. split; [reflexivity|]. unfold _stopTimers.
    destruct (negb (refreshTimer m =? 0)); cbn; exact Hlen.
  - unfold dispatch. destruct (decide _); [|eexists; split; [reflexivity | exact Hlen]].
    destruct (tick_ends r MAX fs m HMAX) as [m1 Hf].
    pose proof (tick_keeps_bound r MAX fs m m1 Hf Hlen) as Hb.
    destruct (refreshCharts r MAX fs m) as [[] m2|e2 m2|]; try discriminate;
      injection Hf as ->; eexists; (split; [reflexivity | exact Hb]).
  - destruct (tick_ends r MAX fs m HMAX) as [m1 Hf]. rewrite Hf.
    eexists. split; [reflexivity|]. eapply tick_keeps_bound; eassumption.
  - eexists. split; [reflexivity|]. unfold _stopTimers.
    destruct (negb (refreshTimer m =? 0)); cbn; exact Hlen.
Qed.

(** X6.  With a bound of at least one, every sequence of events after
    the construction of a monitor runs to its end, and at the end the
    history holds at most [HISTORY_MAX_SIZE] samples. *)
Theorem history_bounded_for_life (r : variant) (MAX : nat) (es : list event)
    (g0 : glib) :
  1 <= MAX ->
  exists m g, steps r MAX es (_init g0) = Some (m, g)
              /\ length (history m) <= MAX.
Proof.
  intros HMAX.
  assert (H : forall mg, length (history (fst mg)) <= MAX ->
                         exists mg', steps r MAX es mg = Some mg'
                                     /\ length (history (fst mg')) <= MAX).
  { induction es as [|e es IH]; intros mg Hlen; cbn [steps].
    - exists mg. auto.
    - destruct (step_keeps_bound r MAX e mg HMAX Hlen) as (mg1 & -> & Hlen1).
      apply IH, Hlen1. }
  destruct (H (_init g0)) as ([m g] & Hs & Hl).
  - unfold _init, _startTimers. cbn. lia.
  - exists m, g. auto.
Qed.

Lemma history_bounded_for_life_witness :
  exists m g,
    steps Legacy 1 [Expire (fun _ => Ok "10"); Refresh (fun _ => Ok "20");
                    Visible false; Refresh (fun _ => Ok "30"); Destroy]
      (_init (GLib ∅ 0)) = Some (m, g)
    /\ length (history m) <= 1.
Proof.
  apply (history_bounded_for_life Legacy 1). lia.
Defined.

Lemma alive_step r MAX e mg mg' :
  all_reads_succeed r [e] ->
  step r MAX e mg = Some mg' ->
  (refreshTimer (fst mg) <> 0 -> refreshTimer (fst mg) ∈ sources (snd mg)) ->
  refreshTimer (fst mg') <> 0 -> refreshTimer (fst mg') ∈ sources (snd mg').
Proof.
  intros Hok Hstep Halive. destruct mg as [m g]. cbn [fst snd] in *.
  apply Forall_inv in Hok.
  destruct e as [[]|fs|fs|]; unfold step, notify_visible, destroy in Hstep;
    cbn [fst snd] in Hstep.
  - injection Hstep as <-. unfold _startTimers. cbn.
    destruct (Nat.eqb_spec (refreshTimer m) 0) as [E|E]; cbn.
    + intros _. apply elem_of_union. left. apply elem_of_singleton. reflexivity.
    + exact Halive.
  - injection Hstep as <-. unfold _stopTimers.
    destruct (Nat.eqb_spec (refreshTimer m) 0) as [E|E]; cbn; [exact Halive | lia].
  - destruct (sample r fs) as [x|] eqn:Hs; [|exfalso; apply Hok; reflexivity].
    unfold dispatch in Hstep.
    destruct (decide _); [|injection Hstep as <-; exact Halive].
    destruct MAX as [|MAX].
    + rewrite (tick_diverges_at_zero r fs m x Hs) in Hstep. discriminate.
    + destruct (tick_sample r (S MAX) fs m x ltac:(lia) Hs) as [u Ht].
      rewrite Ht in Hstep. injection Hstep as <-. cbn. exact Halive.
  - destruct (final _) as [m1|] eqn:Hf; [|discriminate]. injection Hstep as <-.
    cbn. rewrite (tick_keeps_handle r MAX fs m m1 Hf). exact Halive.
  - injection Hstep as <-. unfold _stopTimers.
    destruct (Nat.eqb_spec (refreshTimer m) 0) as [E|E]; cbn; [exact Halive | lia].
Qed.

(** X7.  As long as no read throws, a monitor that holds a handle has a
    live timeout source: while it is shown its ticks keep coming. *)
Theorem timer_alive_while_reads_succeed (r : variant) (MAX : nat)
    (es : list event) (g0 : glib) (m : monitor) (g : glib) :
  all_reads_succeed r es ->
  steps r MAX es (_init g0) = Some (m, g) ->
  refreshTimer m <> 0 -> refreshTimer m ∈ sources g.
Proof.
  intros Hok.
  assert (H : forall mg,
             steps r MAX es mg = Some (m, g) ->
             (refreshTimer (fst mg) <> 0 -> refreshTimer (fst mg) ∈ sources (snd mg)) ->
             refreshTimer m <> 0 -> refreshTimer m ∈ sources g).
  { induction Hok as [|e es He _ IH]; intros mg; cbn [steps].
    - intros [= ->]. auto.
    - destruct (step r MAX e mg) as [mg1|] eqn:Hs; [|discriminate].
      intros Hrest Halive. apply (IH mg1 Hrest).
      apply (alive_step r MAX e mg mg1); [repeat constructor; exact He | exact Hs | exact Halive]. }
  intros Hsteps. apply (H _ Hsteps). unfold _init, _startTimers. cbn. intros _.
  apply elem_of_union. left. apply elem_of_singleton. reflexivity.
Qed.

Lemma timer_alive_while_reads_succeed_witness :
  exists m g,
    steps Current 5
      [Expire (fun _ => Ok "10"); Visible false; Visible true;
       Expire (fun _ => Ok "20"); Refresh (fun _ => Ok "30")]
      (_init (GLib {[1]} 1)) = Some (m, g)
    /\ history m = [of_Z 20; of_Z 30]
    /\ refreshTimer m = 3
    /\ refreshTimer m ∈ sources g.
Proof.
  eexists _, _. split; [vm_compute; reflexivity|].
  split; [reflexivity|]. split; [reflexivity|].
  eapply (timer_alive_while_reads_succeed Current 5
            [Expire (fun _ => Ok "10"); Visible false; Visible true;
             Expire (fun _ => Ok "20"); Refresh (fun _ => Ok "30")]
            (GLib {[1]} 1)).
  - repeat (constructor; [try exact I; try discriminate|]). constructor.
  - vm_compute. reflexivity.
  - cbn. lia.
Defined.

(** X8.  After one tick whose read throws, the source of the timer is
    gone while the monitor still holds its handle.  From then on start
    creates no timer and an expiry of that handle runs no tick: the
    monitor samples no more, until a stop followed by a start gives it
    a new, live timer. *)
Theorem failed_tick_stalls_the_sampler (r : variant) (MAX : nat)
    (fs : filesystem) (m : monitor) (g : glib) :
  refreshTimer m <> 0 -> refreshTimer m ∈ sources g -> sample r fs = None ->
  exists m1 g1,
    step r MAX (Expire fs) (m, g) = Some (m1, g1)
    /\ refreshTimer m1 = refreshTimer m
    /\ (refreshTimer m1 ∉ sources g1)
    /\ snd (_startTimers (m1, g1)) = g1
    /\ (forall fs', step r MAX (Expire fs') (_startTimers (m1, g1))
                    = Some (_startTimers (m1, g1)))
    /\ (let '(m2, g2) := _startTimers (_stopTimers (m1, g1)) in
        refreshTimer m2 <> 0 /\ refreshTimer m2 ∈ sources g2).
Proof.
  intros Hrun Hin Hs.
  destruct (failed_tick_destroys_source r MAX fs m g Hs Hin) as (m1 & Hd & Ht & Hgone).
  exists m1, (source_remove (refreshTimer m) g).
  split; [exact Hd|]. split; [exact Ht|]. rewrite Ht.
  split; [exact Hgone|].
  assert (Hstart : _startTimers (m1, source_remove (refreshTimer m) g)
                   = ({| history := []; refreshTimer := refreshTimer m; ui := ui m1 |},
                      source_remove (refreshTimer m) g)).
  { unfold _startTimers. cbn. rewrite Ht.
    destruct (Nat.eqb_spec (refreshTimer m) 0); [contradiction | reflexivity]. }
  rewrite Hstart. split; [reflexivity|]. split.
  - intros fs'. unfold step, dispatch. cbn [fst refreshTimer].
    rewrite decide_False by exact Hgone. reflexivity.
  - unfold _stopTimers, _startTimers. rewrite Ht. cbn.
    destruct (Nat.eqb_spec (refreshTimer m) 0); [contradiction|]. cbn.
    split; [lia|]. apply elem_of_union. left. apply elem_of_singleton. reflexivity.
Qed.

Lemma failed_tick_stalls_the_sampler_witness :
  exists m1 g1,
    step Legacy 5 (Expire (fun _ => Throw "EIO")) (Monitor [of_Z 10] 2 [], GLib {[2]} 2)
    = Some (m1, g1)
    /\ refreshTimer m1 = 2
    /\ 2 ∉ sources g1.
Proof.
  destruct (failed_tick_stalls_the_sampler Legacy 5 (fun _ => Throw "EIO")
              (Monitor [of_Z 10] 2 []) (GLib {[2]} 2))
    as (m1 & g1 & Hstep & Ht & Hgone & _).
  - cbn. lia.
  - cbn. apply elem_of_singleton. reflexivity.
  - reflexivity.
  - exists m1, g1. rewrite Ht in Hgone. auto.
Defined.

(** ** Process names *)

Section ProcessFacts.
Import Shared.

Lemma length_string_of_list_ascii cs :
  String.length (string_of_list_ascii cs) = length cs.
Proof. induction cs as [|c cs IH]; cbn; [reflexivity | rewrite IH; reflexivity]. Qed.

Lemma lastIndexOf_absent c cs : c ∉ cs -> lastIndexOf c cs = None.
Proof.
  induction cs as [|x cs IH]; [reflexivity|]. intros Hnot. cbn.
  rewrite IH by (intros H; apply Hnot; right; exact H).
  destruct (Ascii.eqb_spec x c) as [->|]; [|reflexivity].
  exfalso. apply Hnot. left.
Qed.

Lemma lastIndexOf_last c dir base :
  c ∉ base -> lastIndexOf c (dir ++ c :: base) = Some (length dir).
Proof.
  intros Hnot. induction dir as [|x dir IH]; cbn.
  - rewrite (lastIndexOf_absent c base Hnot), Ascii.eqb_refl. reflexivity.
  - rewrite IH. reflexivity.
Qed.

(** What [getProcessName] keeps of a non-empty argument string. *)
Lemma basename_of_args a args' cmd :
  Shared.getProcessName (Some (String a args')) cmd
  = let args := a :: chars args' in
    let base := match lastIndexOf "/" args with
                | Some i => drop (i + 1) args
                | None => args
                end in
    match base with
    | [] => Shared.getProcessName None cmd
    | _ => string_of_list_ascii (take 35 base)
    end.
Proof.
  unfold Shared.getProcessName. cbv zeta.
  destruct (match lastIndexOf "/" (a :: chars args') with
            | Some i => drop (i + 1) (a :: chars args')
            | None => a :: chars args'
            end); reflexivity.
Qed.

(** X9.  When the argument string of a process ends in a component
    that is not empty, the name is that component, the text after the
    last slash, cut to 35 characters; it contains no slash, and the
    [cmd] of the process state is not looked at. *)
Theorem process_name_is_basename (dir base : list ascii)
    (cmd : option (list ascii)) :
  base <> [] -> "/"%char ∉ base ->
  (dir = [] \/ exists dir', dir = dir' ++ ["/"%char]) ->
  let name := Shared.getProcessName (Some (string_of_list_ascii (dir ++ base))) cmd in
  name = string_of_list_ascii (take 35 base)
  /\ String.length name <= 35
  /\ "/"%char ∉ chars name.
Proof.
  intros Hne Hslash Hdir. cbv zeta.
  assert (Hname : Shared.getProcessName (Some (string_of_list_ascii (dir ++ base))) cmd
                  = string_of_list_ascii (take 35 base)).
  { destruct (string_of_list_ascii (dir ++ base)) as [|a args'] eqn:E.
    - apply (f_equal chars) in E. unfold chars in E.
      rewrite list_ascii_of_string_of_list_ascii in E. cbn in E.
      destruct dir, base; try discriminate; contradiction.
    - rewrite basename_of_args. cbv zeta.
      change (a :: chars args') with (chars (String a args')).
      rewrite <- E. unfold chars. rewrite list_ascii_of_string_of_list_ascii.
      destruct Hdir as [->|[dir' ->]].
      + cbn [app]. rewrite (lastIndexOf_absent _ _ Hslash).
        destruct base; [contradiction | reflexivity].
      + rewrite <- app_assoc. cbn [app].
        rewrite (lastIndexOf_last _ dir' base Hslash).
        replace (length dir' + 1) with (length (dir' ++ ["/"%char]))
          by (rewrite length_app; reflexivity).
        change (dir' ++ "/"%char :: base) with (dir' ++ ["/"%char] ++ base).
        rewrite app_assoc, drop_app_length.
        destruct base; [contradiction | reflexivity]. }
  rewrite Hname. split; [reflexivity|]. split.
  - rewrite length_string_of_list_ascii, length_take. lia.
  - unfold chars. rewrite list_ascii_of_string_of_list_ascii.
    intros Hin. apply elem_of_take in Hin as (i & Hi & _).
    apply Hslash. eapply list_elem_of_lookup_2, Hi.
Qed.

Lemma process_name_is_basename_witness :
  Shared.getProcessName (Some "/usr/bin/gnome-shell") None = "gnome-shell".
Proof.
  apply (process_name_is_basename (chars "/usr/bin/") (chars "gnome-shell") None).
  - discriminate.
  - intros H. repeat (apply elem_of_cons in H as [H|H]; [discriminate H|]).
    inversion H.
  - right. exists (chars "/usr/bin"). reflexivity.
Defined.

Lemma until_zero_no_zero cmd : "000"%char ∉ Shared.until_zero cmd.
Proof.
  induction cmd as [|c cmd IH]; cbn; [intros H; inversion H|].
  destruct (Ascii.eqb_spec c "000") as [->|Hne]; [intros H; inversion H|].
  intros [H|H]%elem_of_cons; [congruence | contradiction].
Qed.

Lemma until_zero_prefix cmd : exists rest, cmd = Shared.until_zero cmd ++ rest.
Proof.
  induction cmd as [|c cmd [rest IH]]; cbn; [exists []; reflexivity|].
  destruct (c =? "000")%char; [exists (c :: cmd); reflexivity|].
  exists rest. cbn. rewrite <- IH. reflexivity.
Qed.

(** X10.  Without an argument string, with an empty one, or with one
    that ends in a slash, the name comes from the [cmd] of the process
    state: its code units before the first zero, between brackets, cut
    to 35 characters, so that the closing bracket is lost from 34 code
    units on; the name is empty when those units are none or the field
    is missing. *)
Theorem process_name_falls_back_to_cmd (args : option string)
    (cmd : option (list ascii)) :
  (args = None \/ args = Some ""
   \/ exists dir, args = Some (string_of_list_ascii (dir ++ ["/"%char]))) ->
  Shared.getProcessName args cmd
  = match cmd with
    | Some cmd =>
        match Shared.until_zero cmd with
        | [] => ""
        | str => string_of_list_ascii (take 35 ("["%char :: str ++ ["]"%char]))
        end
    | None => ""
    end
  /\ "000"%char ∉ chars (Shared.getProcessName args cmd).
Proof.
  intros Hargs.
  assert (Hnone : Shared.getProcessName args cmd = Shared.getProcessName None cmd).
  { destruct Hargs as [->|[->|[dir ->]]]; try reflexivity.
    destruct (string_of_list_ascii (dir ++ ["/"%char])) as [|a args'] eqn:E;
      [reflexivity|].
    rewrite basename_of_args. cbv zeta.
    change (a :: chars args') with (chars (String a args')).
    rewrite <- E. unfold chars. rewrite list_ascii_of_string_of_list_ascii.
    rewrite (lastIndexOf_last _ dir []) by (intros H; inversion H).
    replace (length dir + 1) with (length (dir ++ ["/"%char]))
      by (rewrite length_app; reflexivity).
    rewrite drop_all. reflexivity. }
  rewrite Hnone. unfold Shared.getProcessName. cbv zeta.
  destruct cmd as [cmd|]; [|split; [reflexivity | intros H; inversion H]].
  pose proof (until_zero_no_zero cmd) as Hz.
  destruct (Shared.until_zero cmd) as [|c str]; [split; [reflexivity | intros H; inversion H]|].
  split; [reflexivity|].
  unfold chars. rewrite list_ascii_of_string_of_list_ascii.
  intros Hin. apply elem_of_take in Hin as (i & Hin & _).
  apply list_elem_of_lookup_2 in Hin.
  apply elem_of_cons in Hin as [Hin|Hin]; [discriminate|].
  apply elem_of_app in Hin as [Hin|Hin]; [contradiction|].
  apply list_elem_of_singleton in Hin. discriminate.
Qed.

Lemma process_name_falls_back_to_cmd_witness :
  Shared.getProcessName (Some "/usr/bin/")
    (Some (chars "kworker/0:1" ++ ["000"%char; "x"%char]))
  = "[kworker/0:1]".
Proof.
  apply (process_name_falls_back_to_cmd (Some "/usr/bin/")
           (Some (chars "kworker/0:1" ++ ["000"%char; "x"%char]))).
  right. right. exists (chars "/usr/bin"). reflexivity.
Defined.
End ProcessFacts.

(** ** Partitions *)

Section PartitionFacts.
Import Shared.
Variable unix_mount_at : string -> bool.

Lemma map_get_set k v k' m :
  map_get k' (map_set k v m) = if String.eqb k k' then Some v else map_get k' m.
Proof.
  induction m as [|[k0 v0] m IH]; cbn.
  - reflexivity.
  - destruct (String.eqb_spec k0 k) as [->|Hne]; cbn.
    + destruct (String.eqb k k'); reflexivity.
    + rewrite IH. destruct (String.eqb_spec k0 k') as [->|Hne'].
      * destruct (String.eqb_spec k k'); [congruence | reflexivity].
      * reflexivity.
Qed.

Lemma map_set_keys k v m :
  map fst (map_set k v m)
  = match map_get k m with
    | Some _ => map fst m
    | None => map fst m ++ [k]
    end.
Proof.
  induction m as [|[k0 v0] m IH]; cbn; [reflexivity|].
  destruct (String.eqb_spec k0 k) as [->|Hne]; cbn; [reflexivity|].
  rewrite IH. destruct (map_get k m); reflexivity.
Qed.

Lemma map_get_None k m : map_get k m = None -> k ∉ map fst m.
Proof.
  induction m as [|[k0 v0] m IH]; cbn; [intros _ H; inversion H|].
  destruct (String.eqb_spec k0 k) as [->|Hne]; [discriminate|].
  intros Hm [H|H]%elem_of_cons; [congruence | exact (IH Hm H)].
Qed.

Lemma map_set_NoDup k v m : NoDup (map fst m) -> NoDup (map fst (map_set k v m)).
Proof.
  intros Hnd. rewrite map_set_keys. destruct (map_get k m) eqn:E; [exact Hnd|].
  apply NoDup_app. split; [exact Hnd|]. split; [|apply NoDup_singleton].
  intros x Hx ->%list_elem_of_singleton. exact (map_get_None k m E Hx).
Qed.

(** The paths of a map in terms of its lookups. *)
Lemma map_values_lookup m :
  Forall2 (fun k v => map_get k m = Some v) (map fst m) (map snd m)
  \/ ~ NoDup (map fst m).
Proof.
  destruct (decide (NoDup (map fst m))) as [Hnd|]; [left | right; assumption].
  induction m as [|[k v] m IH]; cbn; [constructor|].
  apply NoDup_cons in Hnd as [Hk Hnd]. constructor.
  - rewrite String.eqb_refl. reflexivity.
  - eapply Forall2_impl; [apply IH, Hnd|]. cbn.
    intros k' v' Hget. destruct (String.eqb_spec k k') as [->|]; [|exact Hget].
    exfalso. apply Hk. clear -Hget.
    induction m as [|[k0 v0] m IH]; cbn in *; [discriminate|].
    destruct (String.eqb_spec k0 k') as [->|]; [left | right; auto].
Qed.

(** What the map of [getPartitions] holds after a list of entries. *)
Lemma visit_mount_all entries :
  let m := fold_left (visit_mount unix_mount_at) entries [] in
  NoDup (map fst m)
  /\ (forall k v, map_get k m = Some v -> shortest_mount unix_mount_at entries k v)
  /\ (forall e, e ∈ entries -> reportable unix_mount_at e ->
                exists v, map_get (get_device_path e) m = Some v).
Proof.
  induction entries as [|e entries IH] using rev_ind; cbv zeta.
  - cbn. split; [constructor|]. split; [discriminate|]. intros e H; inversion H.
  - rewrite fold_left_app. cbn [fold_left].
    destruct IH as (Hnd & Hsound & Hcover).
    set (m := fold_left (visit_mount unix_mount_at) entries []) in *.
    assert (Hweak : forall k v, shortest_mount unix_mount_at entries k v ->
                      (reportable unix_mount_at e -> get_device_path e = k ->
                       String.length v <= String.length (get_mount_path e)) ->
                      shortest_mount unix_mount_at (entries ++ [e]) k v).
    { intros k v [(e0 & Hin & H0) Hmin] Hle. split.
      - exists e0. rewrite elem_of_app. auto.
      - intros e' [Hin' | ->%list_elem_of_singleton]%elem_of_app; auto. }
    assert (Hcover' : forall m', (forall k v, map_get k m = Some v ->
                                   exists v', map_get k m' = Some v') ->
                      (reportable unix_mount_at e ->
                       exists v, map_get (get_device_path e) m' = Some v) ->
                      forall e', e' ∈ entries ++ [e] -> reportable unix_mount_at e' ->
                                 exists v, map_get (get_device_path e') m' = Some v).
    { intros m' Hkeep He e' [Hin' | ->%list_elem_of_singleton]%elem_of_app Hr; [|auto].
      destruct (Hcover e' Hin' Hr) as [v Hv]. eapply Hkeep, Hv. }
    unfold visit_mount. unfold reportable in *.
    destruct (is_loopback e) eqn:Hloop; cbn [negb].
    { split; [exact Hnd|]. split.
      - intros k v Hget. apply Hweak; [auto|]. intros [? _]; congruence.
      - apply Hcover'; [eauto|]. intros [? _]; congruence. }
    destruct (map_get (get_device_path e) m) as [shortest|] eqn:Hold.
    + destruct (Nat.ltb_spec (String.length (get_mount_path e)) (String.length shortest))
        as [Hlt|Hge].
      * destruct (unix_mount_at (get_mount_path e)) eqn:Hmnt.
        -- split; [apply map_set_NoDup, Hnd|]. split.
           ++ intros k v. rewrite map_get_set.
              destruct (String.eqb_spec (get_device_path e) k) as [<-|Hne].
              ** intros [= <-]. split.
                 { exists e. unfold reportable. rewrite elem_of_app, list_elem_of_singleton. auto. }
                 intros e' [Hin' | ->%list_elem_of_singleton]%elem_of_app Hr Hd; [|lia].
                 destruct (Hsound _ _ Hold) as [_ Hmin].
                 specialize (Hmin e' Hin' Hr Hd). lia.
              ** intros Hget. apply Hweak; [auto|]. intros _ ?; congruence.
           ++ apply Hcover'.
              ** intros k v Hget. rewrite map_get_set.
                 destruct (String.eqb _ _); eauto.
              ** intros _. rewrite map_get_set, String.eqb_refl. eauto.
        -- split; [exact Hnd|]. split.
           ++ intros k v Hget. apply Hweak; [auto|]. intros [_ ?]; congruence.
           ++ apply Hcover'; [eauto|]. intros [_ ?]; congruence.
      * split; [exact Hnd|]. split.
        -- intros k v Hget. apply Hweak; [auto|]. intros _ <-.
           rewrite Hold in Hget. injection Hget as <-. exact Hge.
        -- apply Hcover'; [eauto|]. intros _. eauto.
    + destruct (unix_mount_at (get_mount_path e)) eqn:Hmnt.
      * split; [apply map_set_NoDup, Hnd|]. split.
        -- intros k v. rewrite map_get_set.
           destruct (String.eqb_spec (get_device_path e) k) as [<-|Hne].
           ++ intros [= <-]. split.
              { exists e. unfold reportable. rewrite elem_of_app, list_elem_of_singleton. auto. }
              intros e' [Hin' | ->%list_elem_of_singleton]%elem_of_app Hr Hd; [|lia].
              destruct (Hcover e' Hin' Hr) as [v Hv]. congruence.
           ++ intros Hget. apply Hweak; [auto|]. intros _ ?; congruence.
        -- apply Hcover'.
           ++ intros k v Hget. rewrite map_get_set.
              destruct (String.eqb _ _); eauto.
           ++ intros _. rewrite map_get_set, String.eqb_refl. eauto.
      * split; [exact Hnd|]. split.
        -- intros k v Hget. apply Hweak; [auto|]. intros [_ ?]; congruence.
        -- apply Hcover'; [eauto|]. intros [_ ?]; congruence.
Qed.

Lemma map_get_Some_key k v m : map_get k m = Some v -> k ∈ map fst m.
Proof.
  induction m as [|[k0 v0] m IH]; cbn; [discriminate|].
  destruct (String.eqb_spec k0 k) as [->|]; [left | right; auto].
Qed.

(** X11.  [getPartitions] reports one path for each device that has an
    entry which is not a loopback device and is mounted: the devices
    behind the reported paths are pairwise distinct, each path is the
    mount path of such an entry of its device and no such entry of that
    device has a shorter one, and every such entry has its device
    among them.  Without a list of entries it reports nothing. *)
Theorem partitions_one_shortest_path_per_device (entries : list mount_point) :
  getPartitions None unix_mount_at = []
  /\ exists devices,
      NoDup devices
      /\ Forall2 (shortest_mount unix_mount_at entries) devices
           (getPartitions (Some entries) unix_mount_at)
      /\ forall e, e ∈ entries -> reportable unix_mount_at e ->
                   get_device_path e ∈ devices.
Proof.
  split; [reflexivity|].
  destruct (visit_mount_all entries) as (Hnd & Hsound & Hcover).
  exists (map fst (fold_left (visit_mount unix_mount_at) entries [])).
  split; [exact Hnd|]. split.
  - unfold getPartitions.
    destruct (map_values_lookup (fold_left (visit_mount unix_mount_at) entries []))
      as [H|H]; [|contradiction].
    eapply Forall2_impl; [exact H|]. exact Hsound.
  - intros e Hin Hr. destruct (Hcover e Hin Hr) as [v Hv].
    eapply map_get_Some_key, Hv.
Qed.
End PartitionFacts.

(** Two mount points of one disk, a second disk, a loopback device and
    a path at which nothing is mounted. *)
Example partitions_of_two_disks :
  Shared.getPartitions
    (Some [Shared.MountPoint "/dev/sda1" "/home" false;
           Shared.MountPoint "/dev/sda2" "/boot" false;
           Shared.MountPoint "/dev/sda1" "/" false;
           Shared.MountPoint "/dev/loop0" "/snap" true;
           Shared.MountPoint "/dev/sda3" "/gone" false])
    (fun path => negb (String.eqb path "/gone"))
  = ["/"; "/boot"].
Proof. reflexivity. Qed.

(** ** Byte counts *)

Lemma nlt_Num a b : nlt (Num a) (Num b) = true <-> (a < b)%Q.
Proof.
  cbn. destruct (Qle_bool b a) eqn:E; cbn.
  - apply Qle_bool_iff in E. split; [discriminate|].
    intros H. exfalso. exact (Qlt_not_le _ _ H E).
  - split; [|reflexivity]. intros _. apply Qnot_le_lt. intros H.
    apply Qle_bool_iff in H. congruence.
Qed.

Lemma nlt_Num_false a b : nlt (Num a) (Num b) = false <-> (b <= a)%Q.
Proof.
  cbn. destruct (Qle_bool b a) eqn:E; cbn.
  - apply Qle_bool_iff in E. tauto.
  - split; [discriminate|]. intros H. apply Qle_bool_iff in H. congruence.
Qed.

(** The quantity that [bytesToHumanString] compares is a finite number
    equal to [quantity_of], next to the suffix [suffix_of]. *)
Lemma bytesToHumanString_quantity (q : Q) (unit : string) (imprecise : bool) :
  exists quantity,
    (quantity == quantity_of q unit)%Q
    /\ Shared.bytesToHumanString (Num q) unit imprecise
       = let precision := if imprecise then 0 else 1 in
         let suffix := suffix_of unit in
         let quantity := Num quantity in
         if nlt quantity (of_Z 1) then
           Shared.Str (Shared.Lit ("0 K" +:+ suffix))
         else if nlt quantity (of_Z 1000) then
           Shared.Str (Shared.Lit ("< 1 K" +:+ suffix))
         else if nlt quantity Shared.ONE_MB_IN_B then
           Shared.Str (Shared.Fixed (ndiv quantity (of_Z 1000)) 0 (" K" +:+ suffix))
         else if nlt quantity Shared.TEN_MB_IN_B then
           Shared.Str (Shared.Fixed (ndiv quantity Shared.ONE_MB_IN_B) precision
                         (" M" +:+ suffix))
         else if nlt quantity Shared.ONE_GB_IN_B then
           Shared.Str (Shared.Fixed (ndiv quantity Shared.ONE_MB_IN_B) 0 (" M" +:+ suffix))
         else if nlt quantity Shared.TEN_GB_IN_B then
           Shared.Str (Shared.Fixed (ndiv quantity Shared.ONE_GB_IN_B) precision
                         (" G" +:+ suffix))
         else if nlt quantity Shared.ONE_TB_IN_B then
           Shared.Str (Shared.Fixed (ndiv quantity Shared.ONE_GB_IN_B) 0 (" G" +:+ suffix))
         else if nlt quantity Shared.TEN_TB_IN_B then
           Shared.Str (Shared.Fixed (ndiv quantity Shared.ONE_TB_IN_B) precision
                         (" T" +:+ suffix))
         else
           Shared.Str (Shared.Fixed (ndiv quantity Shared.ONE_TB_IN_B) 0 (" T" +:+ suffix)).
Proof.
  unfold Shared.bytesToHumanString, quantity_of, suffix_of. cbn [isNaN].
  destruct (String.eqb unit "bits").
  - exists (Qred (q * 8)). split; [apply Qred_correct|].
    destruct imprecise; reflexivity.
  - exists q. split; [reflexivity|]. destruct imprecise; reflexivity.
Qed.

(** X12.  Whatever the unit, a quantity below 1 (zero and negative
    counts included) is reported as [0 K] and a quantity from 1 up to,
    not including, 1000 as [< 1 K], followed by the suffix: [b] with the
    quantity eight times the count for the unit [bits], [B] with the
    quantity equal to the count for any other unit. *)
Theorem small_quantities (q : Q) (unit : string) (imprecise : bool) :
  ((quantity_of q unit < 1)%Q ->
   Shared.bytesToHumanString (Num q) unit imprecise
   = Shared.Str (Shared.Lit ("0 K" +:+ suffix_of unit)))
  /\ ((1 <= quantity_of q unit /\ quantity_of q unit < 1000)%Q ->
      Shared.bytesToHumanString (Num q) unit imprecise
      = Shared.Str (Shared.Lit ("< 1 K" +:+ suffix_of unit))).
Proof.
  destruct (bytesToHumanString_quantity q unit imprecise) as (Q' & HQ & ->).
  cbv zeta. rewrite <- HQ. split.
  - intros H. apply (nlt_Num Q' (inject_Z 1)) in H. unfold of_Z. rewrite H. reflexivity.
  - intros [H1 H2]. apply (nlt_Num_false Q' (inject_Z 1)) in H1.
    apply (nlt_Num Q' (inject_Z 1000)) in H2. unfold of_Z. rewrite H1, H2. reflexivity.
Qed.

Lemma small_quantities_witness :
  Shared.bytesToHumanString (Num (-5)) "bytes" true = Shared.Str (Shared.Lit "0 KB")
  /\ Shared.bytesToHumanString (Num 100) "bits" false
     = Shared.Str (Shared.Lit "< 1 Kb").
Proof.
  split.
  - apply (small_quantities (-5) "bytes" true). reflexivity.
  - apply (small_quantities 100 "bits" false). split; [discriminate | reflexivity].
Defined.

Ltac decide_comparisons Q' :=
  repeat match goal with
         | |- context [nlt (Num Q') (Num (inject_Z ?z))] =>
             first [ rewrite (proj2 (nlt_Num Q' (inject_Z z))) by (unfold inject_Z; lra)
                   | rewrite (proj2 (nlt_Num_false Q' (inject_Z z)))
                       by (unfold inject_Z; lra) ]
         end.

(** X13.  From a quantity of 1000 on, the range of the quantity decides
    the prefix and the number of fraction digits that are asked of
    [toFixed]: K below 10^6, M below 10^9, G below 10^12 and T from
    there on, always followed by the suffix of the unit; no fraction
    digit, except in the first decade of the M, G and T ranges, where
    one digit is asked for unless the imprecise flag is set.  Nothing
    is said here of the digits that [toFixed] prints. *)
Theorem quantity_prefix_and_digits (q : Q) (unit : string) (imprecise : bool) :
  let quantity := quantity_of q unit in
  let precision := if imprecise then 0 else 1 in
  let shown (digits : nat) (prefix : string) :=
    exists x, Shared.bytesToHumanString (Num q) unit imprecise
              = Shared.Str (Shared.Fixed x digits (" " +:+ prefix +:+ suffix_of unit)) in
  ((1000 <= quantity /\ quantity < 1000000)%Q -> shown 0 "K")
  /\ ((1000000 <= quantity /\ quantity < 10000000)%Q -> shown precision "M")
  /\ ((10000000 <= quantity /\ quantity < 1000000000)%Q -> shown 0 "M")
  /\ ((1000000000 <= quantity /\ quantity < 10000000000)%Q -> shown precision "G")
  /\ ((10000000000 <= quantity /\ quantity < 1000000000000)%Q -> shown 0 "G")
  /\ ((1000000000000 <= quantity /\ quantity < 10000000000000)%Q -> shown precision "T")
  /\ ((10000000000000 <= quantity)%Q -> shown 0 "T").
Proof.
  cbv zeta.
  destruct (bytesToHumanString_quantity q unit imprecise) as (Q' & HQ & ->).
  cbv zeta. rewrite <- HQ. clear HQ.
  unfold Shared.ONE_MB_IN_B, Shared.TEN_MB_IN_B, Shared.ONE_GB_IN_B,
    Shared.TEN_GB_IN_B, Shared.ONE_TB_IN_B, Shared.TEN_TB_IN_B, of_Z.
  repeat split; intros H; try destruct H as [Hlo Hhi];
    decide_comparisons Q'; eexists; reflexivity.
Qed.

Lemma quantity_prefix_and_digits_witness :
  (exists x, Shared.bytesToHumanString (Num 2500000) "bytes" false
             = Shared.Str (Shared.Fixed x 1 " MB"))
  /\ (exists x, Shared.bytesToHumanString (Num 2500000) "bits" false
                = Shared.Str (Shared.Fixed x 0 " Mb")).
Proof.
  split.
  - apply (quantity_prefix_and_digits 2500000 "bytes" false).
    split; [discriminate | reflexivity].
  - apply (quantity_prefix_and_digits 2500000 "bits" false).
    split; [discriminate | reflexivity].
Defined.

(** ** Name lookup and discovery *)

Section LookupFacts.
Import Shared.

Lemma scan_lines_names ls n p :
  let names :=
    map (substring_from 8)
      (filter (fun line => String.eqb (String.substring 0 7 line) "Device:" = true) ls) in
  scan_lines ls n p
  = (match last names with Some x => Some x | None => n end,
     match p with
     | Pending => match head names with Some x => Resolved x | None => Pending end
     | _ => p
     end).
Proof.
  cbv zeta. revert n p. induction ls as [|line ls IH]; intros n p.
  - cbn. destruct p; reflexivity.
  - cbn [scan_lines]. rewrite filter_cons.
    destruct (String.eqb (String.substring 0 7 line) "Device:") eqn:E.
    + rewrite decide_True by reflexivity. cbn [map]. rewrite IH, last_cons.
      cbn [head]. f_equal.
      * destruct (last _); reflexivity.
      * destruct p; reflexivity.
    + rewrite decide_False by discriminate. apply IH.
Qed.

(** X14.  When the two id files are readable and [lspci] ends
    successfully, the promise of [lookupName] resolves with what follows
    the first [Device:] line of the output, while the name kept in the
    device is what follows the last one; with no such line the promise
    never settles and the name stays unset.  [getName] then answers
    with the kept name, or with the path when that name is unset or
    empty. *)
Theorem lookup_resolves_first_keeps_last (fs : filesystem)
    (spawn : list string -> subprocess) (path vendor device stdout : string) :
  fs (path +:+ "/device/vendor") = Ok vendor ->
  fs (path +:+ "/device/device") = Ok device ->
  spawn ["lspci"; "-v"; "-mm"; "-d"; vendor +:+ ":" +:+ device] = Exits true stdout ->
  let names := device_names stdout in
  let d' := {| class := AmdGpuClass; sysfsPath := path; name := last names |} in
  lookupName fs spawn (new_AmdGpu path)
  = (d', Some (match head names with Some n => Resolved n | None => Pending end))
  /\ getName d'
     = match last names with
       | Some n => if String.eqb n "" then path else n
       | None => path
       end.
Proof.
  intros Hv Hd Hs. cbv zeta. split; [|reflexivity].
  unfold lookupName. cbn [class new_AmdGpu sysfsPath name].
  rewrite Hv, Hd, Hs, scan_lines_names. unfold with_name, device_names.
  cbn [class sysfsPath name]. destruct (last _); reflexivity.
Qed.

Lemma lookup_resolves_first_keeps_last_witness :
  lookupName (fun _ => Ok "0x1002")
    (fun _ => Exits true
                (String.concat (String "010" "")
                   ["Device: Navi 10"; "Rev: c1"; ""; "Device: Navi 21"; ""]))
    (new_AmdGpu "/sys/class/drm/card0")
  = (Device AmdGpuClass "/sys/class/drm/card0" (Some "Navi 21"),
     Some (Resolved "Navi 10")).
Proof.
  destruct (lookup_resolves_first_keeps_last (fun _ => Ok "0x1002")
              (fun _ => Exits true
                          (String.concat (String "010" "")
                             ["Device: Navi 10"; "Rev: c1"; ""; "Device: Navi 21"; ""]))
              "/sys/class/drm/card0" "0x1002" "0x1002"
              (String.concat (String "010" "")
                 ["Device: Navi 10"; "Rev: c1"; ""; "Device: Navi 21"; ""])
              eq_refl eq_refl eq_refl) as [H _].
  exact H.
Defined.

Lemma is_digit_cases d :
  is_digit d = true ->
  d ∈ ["0"; "1"; "2"; "3"; "4"; "5"; "6"; "7"; "8"; "9"]%char.
Proof.
  destruct d as [[] [] [] [] [] [] [] []]; cbn; try discriminate; intros _;
    repeat (first [left | right]).
Qed.

(** X15.  Discovery never finds more than ten devices, since only the
    names [card0] to [card9] pass the filter; each device it resolves
    with is a fresh [AmdGpu] for the path it is stored under, its name
    unset; and a listing that fails is handed on as a rejection with
    the same error. *)
Theorem at_most_ten_devices (content : list string) (fs : filesystem) (err : exn) :
  (exists collection,
      findGpuDevices (Ok content) fs = Resolved collection
      /\ size collection <= 10
      /\ forall path dev, collection !! path = Some dev -> dev = new_AmdGpu path)
  /\ findGpuDevices (Throw err) fs = Rejected err.
Proof.
  split; [|reflexivity]. eexists. split; [reflexivity|]. split.
  - set (paths := map (fun d => basePath +:+ "card" +:+ String d "")
                    ["0"; "1"; "2"; "3"; "4"; "5"; "6"; "7"; "8"; "9"]%char).
    rewrite <- size_dom.
    transitivity (size (list_to_set paths : gset string)).
    + apply subseteq_size. intros path [dev Hdev]%elem_of_dom.
      apply visit_all_lookup in Hdev as (entry & _ & Hre & -> & _).
      apply card_regex_test in Hre as (d & Hd & ->).
      apply elem_of_list_to_set, list_elem_of_fmap. exists d.
      split; [reflexivity | apply is_digit_cases, Hd].
    + rewrite size_list_to_set; [reflexivity|].
      apply (bool_decide_unpack (NoDup paths)). vm_compute. reflexivity.
  - intros path dev Hdev.
    apply visit_all_lookup in Hdev as (entry & _ & _ & _ & -> & _). reflexivity.
Qed.
End LookupFacts.

(** ** Blank readings *)

Lemma skip_white_blank cs :
  Forall (fun c => is_white_space c = true) cs -> skip_white cs = [].
Proof.
  induction 1 as [|c cs Hc _ IH]; [reflexivity|]. cbn. rewrite Hc. exact IH.
Qed.

(** X17.  A metric file that holds nothing but white space, or nothing
    at all, gives two different samples: [lib/gpu.js] records NaN, the
    legacy variant records zero. *)
Theorem blank_reading (content : string) :
  Forall (fun c => is_white_space c = true) (chars content) ->
  parsed Current content = NaN /\ parsed Legacy content = of_Z 0.
Proof.
  intros Hblank. split.
  - unfold parsed, parseInt. rewrite (skip_white_blank _ Hblank). reflexivity.
  - unfold parsed, trim, trim_chars, chars in *.
    rewrite (skip_white_blank _ Hblank). reflexivity.
Qed.

Lemma blank_reading_witness :
  parsed Current (String "010" "") = NaN /\ parsed Legacy (String "010" "") = of_Z 0.
Proof.
  apply (blank_reading (String "010" "")). repeat constructor.
Defined.

(** ** Instances of the statements above that carry no premise *)

Lemma stop_cancels_the_timer_witness :
  (2 ∉ sources (snd (_stopTimers (Monitor [of_Z 10] 2 [], GLib {[1; 2]} 2))))
  /\ (1 ∈ sources (snd (_stopTimers (Monitor [of_Z 10] 2 [], GLib {[1; 2]} 2)))
      <-> 1 ∈ ({[1; 2]} : gset nat)).
Proof.
  pose proof (stop_cancels_the_timer (Monitor [of_Z 10] 2 []) (GLib {[1; 2]} 2)) as H.
  change (refreshTimer (Monitor [of_Z 10] 0 []) = 0
          /\ [of_Z 10] = [of_Z 10]
          /\ (2 <> 0 ->
              2 ∉ sources (snd (_stopTimers (Monitor [of_Z 10] 2 [], GLib {[1; 2]} 2))))
          /\ (forall id, id <> 2 ->
                id ∈ sources (snd (_stopTimers (Monitor [of_Z 10] 2 [], GLib {[1; 2]} 2)))
                <-> id ∈ ({[1; 2]} : gset nat))
          /\ _stopTimers (_stopTimers (Monitor [of_Z 10] 2 [], GLib {[1; 2]} 2))
             = _stopTimers (Monitor [of_Z 10] 2 [], GLib {[1; 2]} 2)) in H.
  destruct H as (_ & _ & Hgone & Hkeep & _).
  split; [apply Hgone; lia | apply Hkeep; lia].
Defined.

Lemma partitions_one_shortest_path_per_device_witness :
  exists devices,
    NoDup devices
    /\ Forall2 (shortest_mount (fun _ => true)
                  [Shared.MountPoint "/dev/sda1" "/home" false;
                   Shared.MountPoint "/dev/sda1" "/" false])
         devices ["/"].
Proof.
  destruct (partitions_one_shortest_path_per_device (fun _ => true)
              [Shared.MountPoint "/dev/sda1" "/home" false;
               Shared.MountPoint "/dev/sda1" "/" false])
    as (_ & devices & Hnd & Hall & _).
  exists devices. split; [exact Hnd | exact Hall].
Defined.

Lemma at_most_ten_devices_witness :
  exists collection,
    Shared.findGpuDevices (Ok ["card0"; "card1"; "card10"; "card2"]) (fun _ => Ok "5")
    = Shared.Resolved collection
    /\ size collection <= 10.
Proof.
  destruct (at_most_ten_devices ["card0"; "card1"; "card10"; "card2"]
              (fun _ => Ok "5") "") as ((collection & Hres & Hsize & _) & _).
  exists collection. split; [exact Hres | exact Hsize].
Defined.
